(** * Group hooks of the LMS client: effects, traces and their properties

    An embedding of [src/hooks/groups/index.tsx].  Every hook of that file
    is a thin layer of control flow around external collaborators (file
    upload, server actions, notifications, the router, the query cache,
    the realtime channel).  The embedding keeps the control flow and turns
    every call to a collaborator into an event of a trace; what a
    collaborator answers is read from a [Backend], a family of oracles that
    see the whole trace so far. *)

From Stdlib Require Import List String ZArith Bool Arith Lia.
Import ListNotations.
Local Open Scope string_scope.
Local Open Scope list_scope.

(** ** JavaScript values *)

(** Truthiness of an optional string: [undefined] and [""] are falsy. *)
Definition truthy (s : option string) : bool :=
  match s with
  | Some s => negb (String.eqb s "")
  | None => false
  end.

(** A file picked in a file input; only its identity matters. *)
Definition File := string.

(** What [upload.uploadFile] resolves to. *)
Record UploadcareFile := { uuid : string }.

(** Errors that can be thrown or be the reason of a rejected promise. *)
Inductive exn :=
| TypeError (msg : string)
| Error (msg : string).

(** A settled promise. *)
Inductive settled (A : Type) :=
| Fulfilled (a : A)
| Rejected (reason : exn).
Arguments Fulfilled {A} a.
Arguments Rejected {A} reason.

(** The field-name tag of [onUpDateGroupSettings]. *)
Inductive GroupField :=
| IMAGE | ICON | NAME | DESCRIPTION | JSONDESCRIPTION | HTMLDESCRIPTION.

Definition GroupField_eqb (a b : GroupField) : bool :=
  match a, b with
  | IMAGE, IMAGE | ICON, ICON | NAME, NAME
  | DESCRIPTION, DESCRIPTION | JSONDESCRIPTION, JSONDESCRIPTION
  | HTMLDESCRIPTION, HTMLDESCRIPTION => true
  | _, _ => false
  end.

(** Answers of the server actions. *)
Record StatusResult := { status : Z }.
Record MessageResult := { mstatus : Z; message : option string }.

(** The payload tracked on the presence channel. *)
Record Member := { userid : string }.
Record Presence := { member : Member }.

(** Actions dispatched to the shared store. *)
Inductive action :=
| onOnline (ids : list string)
| onClearSearch.

(** ** Traces *)

Inductive event :=
| UploadFile (f : File)
| UpDateGroupSettings (groupid : string) (tag : GroupField) (value path : string)
| UpdateGroupGallery (groupid value : string)
| AddCustomDomain (groupid domain : string)
| Toast (title : string) (description : option string)
| ConsoleError (label : string) (error : exn)
| ConsoleLog (text : string)
| ConsoleLogState (state : list (string * list Presence))
| Dispatch (a : action)
| RouterPush (path : string)
| InvalidateQueries (queryKey : string)
| FormReset
| Refetch (queryKey : string)
| SearchGroups (kind term : string)
| ChannelTrack (channel : string) (payload : Presence).

(** The collaborators.  Each oracle receives the trace of everything that
    happened before the call, so an answer may depend on the whole past. *)
Record Backend := {
  upload_answer : list event -> File -> settled (option UploadcareFile);
  settings_answer :
    list event -> string -> GroupField -> string -> string -> settled StatusResult;
  gallery_answer :
    list event -> string -> string -> settled (option MessageResult);
  domain_answer : list event -> string -> string -> settled MessageResult
}.

(** ** Statements with abrupt completion *)

(** How a statement completes: normally (control goes on), by [return]
    (the value returned is a toast id that no caller reads), or by a
    thrown exception. *)
Inductive completion (A : Type) :=
| Normal (a : A)
| Returned
| Thrown (e : exn).
Arguments Normal {A} a.
Arguments Returned {A}.
Arguments Thrown {A} e.

Definition M (A : Type) : Type :=
  Backend -> list event -> completion A * list event.

Definition ret {A} (a : A) : M A := fun _ h => (Normal a, h).

Definition bind {A B} (m : M A) (k : A -> M B) : M B :=
  fun w h =>
    match m w h with
    | (Normal a, h') => k a w h'
    | (Returned, h') => (Returned, h')
    | (Thrown e, h') => (Thrown e, h')
    end.

Declare Scope js_scope.
Delimit Scope js_scope with js.
Notation "x <- m ;; k" := (bind m (fun x => k))
  (at level 61, m at next level, right associativity) : js_scope.
Notation "m ;; k" := (bind m (fun _ => k))
  (at level 61, right associativity) : js_scope.
Local Open Scope js_scope.

Definition emit (e : event) : M unit := fun _ h => (Normal tt, h ++ [e]).
Definition throw {A} (e : exn) : M A := fun _ h => (Thrown e, h).
Definition return_ {A} : M A := fun _ h => (Returned, h).

(** [try { body } catch (error) { handler }]: only a throw is caught. *)
Definition try_catch (body : M unit) (handler : exn -> M unit) : M unit :=
  fun w h =>
    match body w h with
    | (Thrown e, h') => handler e w h'
    | r => r
    end.

(** [await] of a call to a collaborator: the call is logged, and a
    rejection is rethrown at the [await]. *)
Definition await {A} (call : event)
    (answer : Backend -> list event -> settled A) : M A :=
  fun w h =>
    match answer w h with
    | Fulfilled a => (Normal a, h ++ [call])
    | Rejected e => (Thrown e, h ++ [call])
    end.

Definition toast (title : string) (description : option string) : M unit :=
  emit (Toast title description).

Definition upload_uploadFile (f : File) : M (option UploadcareFile) :=
  await (UploadFile f) (fun w h => upload_answer w h f).

Definition onUpDateGroupSettings (groupid : string) (tag : GroupField)
    (value path : string) : M StatusResult :=
  await (UpDateGroupSettings groupid tag value path)
        (fun w h => settings_answer w h groupid tag value path).

Definition onUpdateGroupGallery (groupid value : string)
    : M (option MessageResult) :=
  await (UpdateGroupGallery groupid value)
        (fun w h => gallery_answer w h groupid value).

(** Running a function body from an empty trace. *)
Definition run {A} (m : M A) (w : Backend) : completion A * list event :=
  m w [].

(** ** useGroupSettings *)

(** The submitted form values ([z.infer<typeof GroupSettingsSchema>]):
    every field may be [undefined]; the two file inputs carry file lists. *)
Record GroupSettingsValues := {
  thumbnail : option (list File);
  icon : option (list File);
  name : option string;
  description : option string;
  jsondescription : option string;
  htmldescription : option string
}.

Definition settings_path (groupid : string) : string :=
  "/group/" ++ groupid ++ "/settings".

Definition empty_form_text : string := "Oops! looks like your form is empty".

(** Lines 283-304. *)
Definition thumbnail_step (groupid : string) (values : GroupSettingsValues)
    : M unit :=
  match thumbnail values with
  | Some (file0 :: _) =>
      try_catch
        (uploaded <- upload_uploadFile file0 ;;
         match uploaded with
         | None => throw (Error "Thumbnail upload failed.")
         | Some up =>
             if String.eqb (uuid up) "" then
               throw (Error "Thumbnail upload failed.")
             else
               updated <- onUpDateGroupSettings groupid IMAGE (uuid up)
                            (settings_path groupid) ;;
               if Z.eqb (status updated) 200 then ret tt
               else throw (Error "Updating group thumbnail failed.")
         end)
        (fun error =>
           emit (ConsoleError "Thumbnail Error:" error) ;;
           toast "Error" (Some "Failed to update thumbnail.") ;;
           return_)
  | _ => ret tt
  end.

(** Lines 306-327. *)
Definition icon_step (groupid : string) (values : GroupSettingsValues)
    : M unit :=
  match icon values with
  | Some (file0 :: _) =>
      try_catch
        (uploaded <- upload_uploadFile file0 ;;
         match uploaded with
         | None => throw (Error "Icon upload failed.")
         | Some up =>
             if String.eqb (uuid up) "" then
               throw (Error "Icon upload failed.")
             else
               updated <- onUpDateGroupSettings groupid ICON (uuid up)
                            (settings_path groupid) ;;
               if Z.eqb (status updated) 200 then ret tt
               else throw (Error "Updating group icon failed.")
         end)
        (fun error =>
           emit (ConsoleError "Icon Error:" error) ;;
           toast "Error" (Some "Failed to update icon.") ;;
           return_)
  | _ => ret tt
  end.

(** Lines 329-341, 344-356 and 357-369: the three text fields share one
    shape and differ in the field read and the tag sent. *)
Definition text_step (groupid : string) (tag : GroupField)
    (field : option string) : M unit :=
  match field with
  | Some value =>
      if String.eqb value "" then ret tt
      else
        updated <- onUpDateGroupSettings groupid tag value
                     (settings_path groupid) ;;
        if Z.eqb (status updated) 200 then ret tt
        else toast "Error" (Some empty_form_text) ;; return_
  | None => ret tt
  end.

(** [fl.length] on a value that may be [undefined]. *)
Definition files_length (fl : option (list File)) : M nat :=
  match fl with
  | Some l => ret (List.length l)
  | None =>
      throw (TypeError "Cannot read properties of undefined (reading 'length')")
  end.

(** The condition of lines 370-376, evaluated left to right with the
    short circuit of [&&]. *)
Definition form_is_empty (values : GroupSettingsValues) : M bool :=
  if truthy (description values) then ret false
  else if truthy (name values) then ret false
  else
    n <- files_length (thumbnail values) ;;
    if negb (Nat.eqb n 0) then ret false
    else
      k <- files_length (icon values) ;;
      if negb (Nat.eqb k 0) then ret false
      else ret (negb (truthy (jsondescription values))).

(** The [mutationFn] of the ["group-settings"] mutation, lines 282-384. *)
Definition settings_mutationFn (groupid : string)
    (values : GroupSettingsValues) : M unit :=
  thumbnail_step groupid values ;;
  icon_step groupid values ;;
  text_step groupid NAME (name values) ;;
  emit (ConsoleLog "DESCRIPTION") ;;
  text_step groupid DESCRIPTION (description values) ;;
  text_step groupid JSONDESCRIPTION (jsondescription values) ;;
  empty <- form_is_empty values ;;
  if empty then toast "Error" (Some empty_form_text) ;; return_
  else toast "Success" (Some "Group data updated") ;; return_.

(** What the fetch of group info resolved to ([onGetGroupInfo]); [G] is
    the group record, which no hook of this file inspects. *)
Record GroupInfo (G : Type) := { info_status : Z; info_group : G }.
Arguments info_status {G} _.
Arguments info_group {G} _.

(** Line 393, the last statement of the hook's render:
    [if (data?.status !== 200) router.push(`/group/create`)], where [data]
    is [undefined] as long as the query holds no data. *)
Definition settings_redirect {G} (data : option (GroupInfo G)) : M unit :=
  match option_map info_status data with
  | Some s => if Z.eqb s 200 then ret tt else emit (RouterPush "/group/create")
  | None => emit (RouterPush "/group/create")
  end.

(** ** useGroupInfo, lines 451-467 *)

Definition useGroupInfo {G} (data : option (GroupInfo G)) : M G :=
  (match data with
   | None => emit (RouterPush "/explore")
   | Some _ => ret tt
   end) ;;
  match data with
  | None =>
      throw (TypeError
        "Cannot destructure property 'group' of 'data' as it is undefined.")
  | Some d =>
      (if Z.eqb (info_status d) 200 then ret tt
       else emit (RouterPush "/explore")) ;;
      ret (info_group d)
  end.

(** ** useMediaGallery *)

Record UpdateGalleryValues := {
  videourl : option string;
  image : option (list File)
}.

(** The [while (count < values.image.length)] loop of lines 648-666.  The
    loop reads [values.image[count]] for [count = 0, 1, ...]; [rest] is
    the part of the batch from index [count] on.  [break] and the end of
    the batch both leave the loop normally. *)
Fixpoint image_loop (groupid : string) (rest : list File) : M unit :=
  match rest with
  | [] => ret tt
  | file :: rest' =>
      uploaded <- upload_uploadFile file ;;
      match uploaded with
      | Some up =>
          update <- onUpdateGroupGallery groupid (uuid up) ;;
          match update with
          | Some r =>
              if Z.eqb (mstatus r) 200 then
                emit (ConsoleLog "increment") ;; image_loop groupid rest'
              else toast "Error" (message r)
          | None => toast "Error" None
          end
      | None => toast "Error" (Some "Looks like something went wrong!")
      end
  end.

(** Lines 638-645: the optional video URL. *)
Definition video_step (groupid : string) (values : UpdateGalleryValues)
    : M unit :=
  match videourl values with
  | Some url =>
      if String.eqb url "" then ret tt
      else
        update <- onUpdateGroupGallery groupid url ;;
        match update with
        | Some r =>
            if Z.eqb (mstatus r) 200 then ret tt
            else toast "Error" (message r) ;; return_
        | None => ret tt
        end
  | None => ret tt
  end.

(** The [mutationFn] of the ["update-gallery"] mutation, lines 637-672. *)
Definition gallery_mutationFn (groupid : string)
    (values : UpdateGalleryValues) : M unit :=
  video_step groupid values ;;
  (match image values with
   | Some (file0 :: files) => image_loop groupid (file0 :: files)
   | _ => ret tt
   end) ;;
  toast "Success" (Some "Group gallery updated") ;; return_.

(** ** useCustomDomain, lines 812-826 *)

Definition onAddCustomDomain (groupid domain : string) : M MessageResult :=
  await (AddCustomDomain groupid domain)
        (fun w h => domain_answer w h groupid domain).

Definition domain_onSuccess (data : MessageResult) : M unit :=
  toast (if Z.eqb (mstatus data) 200 then "Success" else "Error")
        (message data).

Definition domain_onSettled : M unit :=
  emit (InvalidateQueries "domain-config").

(** One [mutate(values)] of the add-domain mutation, following the life
    cycle of a query-client mutation: [onMutate], then [mutationFn]; when
    it fulfils, [onSuccess] and [onSettled]; when it rejects, [onSettled]
    alone (the hook registers no [onError]), and [mutate] swallows the
    rejection. *)
Definition domain_mutate (groupid domain : string) : M unit :=
  try_catch
    (emit FormReset ;;
     data <- onAddCustomDomain groupid domain ;;
     domain_onSuccess data ;;
     domain_onSettled)
    (fun _ => domain_onSettled).

(** ** useGroupChatOnline, lines 70-102 *)

(** The presence snapshot of a channel: tracked-client key to the list of
    payloads tracked under it, in the enumeration order of [for ... in]. *)
Definition PresenceState := list (string * list Presence).

Definition tracking_channel : string := "tracking".

(** [state[user]] *)
Fixpoint state_get (state : PresenceState) (user : string)
    : option (list Presence) :=
  match state with
  | [] => None
  | (k, ps) :: state' =>
      if String.eqb k user then Some ps else state_get state' user
  end.

(** [for (const user in state) body] over the keys of the snapshot. *)
Fixpoint for_in (keys : list string) (body : string -> M unit) : M unit :=
  match keys with
  | [] => ret tt
  | user :: keys' => body user ;; for_in keys' body
  end.

(** The listener of the presence ["sync"] event, lines 77-87. *)
Definition on_presence_sync (state : PresenceState) : M unit :=
  emit (ConsoleLogState state) ;;
  for_in (map fst state) (fun user =>
    match state_get state user with
    | Some (p :: _) => emit (Dispatch (onOnline [userid (member p)]))
    | _ =>
        throw (TypeError
          "Cannot read properties of undefined (reading 'member')")
    end).

Inductive SubscribeStatus := SUBSCRIBED | TIMED_OUT | CLOSED | CHANNEL_ERROR.

(** The callback given to [subscribe], lines 88-96. *)
Definition on_subscribe (user : string) (st : SubscribeStatus) : M unit :=
  match st with
  | SUBSCRIBED =>
      emit (ChannelTrack tracking_channel {| member := {| userid := user |} |})
  | _ => ret tt
  end.

(** ** useSearch, lines 131-185 *)

Inductive SearchKind := GROUPS | POSTS.

Definition kind_text (k : SearchKind) : string :=
  match k with GROUPS => "GROUPS" | POSTS => "POSTS" end.

(** The state of one mounted hook.  Time is in milliseconds.
    [delayInputTimeoutId] is the pending 1000 ms timer of the first
    effect, with its deadline and the [query] its callback captured;
    [happened] is the time-stamped trace. *)
Record SearchHook := {
  query : string;
  debounce : string;
  delayInputTimeoutId : option (Z * string);
  happened : list (Z * event)
}.

Definition stamp (t : Z) (es : list event) : list (Z * event) :=
  map (pair t) es.

(** [queryFn], lines 149-154: only a ["GROUPS"] search calls the server. *)
Definition search_queryFn (search : SearchKind) (term : string) : list event :=
  match search with
  | GROUPS => [SearchGroups (kind_text search) term]
  | POSTS => []
  end.

Definition refetch (search : SearchKind) (term : string) : list event :=
  Refetch term :: search_queryFn search term.

(** The second effect, lines 176-182, run when [debounce] has changed. *)
Definition debounce_effect (search : SearchKind) (debounce : string)
    : list event :=
  (if negb (String.eqb debounce "") then refetch search debounce else [])
  ++ (if String.eqb debounce "" then [Dispatch onClearSearch] else []).

(** Mount at time 0: both effects run once. *)
Definition mount (search : SearchKind) : SearchHook :=
  {| query := ""; debounce := "";
     delayInputTimeoutId := Some (1000%Z, "");
     happened := stamp 0 (debounce_effect search "") |}.

(** The timer callback [setDebounce(query)], at the timer's deadline.
    Setting a state to the value it has does not re-run the effect. *)
Definition fire (search : SearchKind) (st : SearchHook) : SearchHook :=
  match delayInputTimeoutId st with
  | None => st
  | Some (deadline, q) =>
      if String.eqb q (debounce st) then
        {| query := query st; debounce := debounce st;
           delayInputTimeoutId := None; happened := happened st |}
      else
        {| query := query st; debounce := q;
           delayInputTimeoutId := None;
           happened :=
             happened st ++ stamp deadline (debounce_effect search q) |}
  end.

(** Time passes until [t]: a timer that is due fires. *)
Definition advance (search : SearchKind) (t : Z) (st : SearchHook)
    : SearchHook :=
  match delayInputTimeoutId st with
  | Some (deadline, _) => if Z.leb deadline t then fire search st else st
  | None => st
  end.

(** [onSearchQuery] at time [t]: [setQuery(value)]; when [query] changes,
    the first effect is cleaned up ([clearTimeout]) and run again
    ([setTimeout(..., 1000)]), lines 140-145. *)
Definition onSearchQuery (search : SearchKind) (t : Z) (value : string)
    (st : SearchHook) : SearchHook :=
  let st := advance search t st in
  if String.eqb value (query st) then st
  else
    {| query := value; debounce := debounce st;
       delayInputTimeoutId := Some ((t + 1000)%Z, value);
       happened := happened st |}.

(** A sequence of input changes, each with the time it occurs at. *)
Fixpoint type_changes (search : SearchKind) (changes : list (Z * string))
    (st : SearchHook) : SearchHook :=
  match changes with
  | [] => st
  | (t, value) :: changes' =>
      type_changes search changes' (onSearchQuery search t value st)
  end.

(** No further input: the pending timer, if any, runs to its deadline. *)
Definition settle (search : SearchKind) (st : SearchHook) : SearchHook :=
  fire search st.

(** ** Reading traces *)

Definition is_settings_call (e : event) : bool :=
  match e with UpDateGroupSettings _ _ _ _ => true | _ => false end.

Definition is_upload (e : event) : bool :=
  match e with UploadFile _ => true | _ => false end.

(** Calls that leave the client: the upload service and the server actions. *)
Definition is_network_call (e : event) : bool :=
  match e with
  | UploadFile _ | UpDateGroupSettings _ _ _ _ | UpdateGroupGallery _ _
  | AddCustomDomain _ _ | SearchGroups _ _ => true
  | _ => false
  end.

Definition is_toast (e : event) : bool :=
  match e with Toast _ _ => true | _ => false end.

Definition is_error_toast (e : event) : bool :=
  match e with Toast title _ => String.eqb title "Error" | _ => false end.

Definition is_invalidation (key : string) (e : event) : bool :=
  match e with InvalidateQueries k => String.eqb k key | _ => false end.

(** The tags of the settings updates of a trace, in order. *)
Definition call_tags (tr : list event) : list GroupField :=
  flat_map (fun e =>
    match e with UpDateGroupSettings _ tag _ _ => [tag] | _ => [] end) tr.

(** The files handed to the upload service, in order. *)
Definition uploads (tr : list event) : list File :=
  flat_map (fun e => match e with UploadFile f => [f] | _ => [] end) tr.

(** The user ids dispatched as online, in order. *)
Definition online_ids (tr : list event) : list string :=
  flat_map (fun e =>
    match e with Dispatch (onOnline ids) => ids | _ => [] end) tr.

Definition is_prefix {A} (l l' : list A) : Prop := exists rest, l' = l ++ rest.

Definition has_file (fl : option (list File)) : bool :=
  match fl with Some (_ :: _) => true | _ => false end.

(** The fields of a submission that are present and non-empty, in the
    order the specification fixes. *)
Definition present_fields (values : GroupSettingsValues) : list GroupField :=
  (if has_file (thumbnail values) then [IMAGE] else [])
  ++ (if has_file (icon values) then [ICON] else [])
  ++ (if truthy (name values) then [NAME] else [])
  ++ (if truthy (description values) then [DESCRIPTION] else [])
  ++ (if truthy (jsondescription values) then [JSONDESCRIPTION] else []).

Definition file_call (groupid : string) (tag : GroupField)
    (ids : File -> string) (fl : option (list File)) : list event :=
  match fl with
  | Some (file0 :: _) =>
      [UpDateGroupSettings groupid tag (ids file0) (settings_path groupid)]
  | _ => []
  end.

Definition text_call (groupid : string) (tag : GroupField)
    (field : option string) : list event :=
  match field with
  | Some value =>
      if String.eqb value "" then []
      else [UpDateGroupSettings groupid tag value (settings_path groupid)]
  | None => []
  end.

(** One update call per present field, as the specification lists them;
    [ids] gives the stored id of each uploaded file. *)
Definition expected_calls (groupid : string) (ids : File -> string)
    (values : GroupSettingsValues) : list event :=
  file_call groupid IMAGE ids (thumbnail values)
  ++ file_call groupid ICON ids (icon values)
  ++ text_call groupid NAME (name values)
  ++ text_call groupid DESCRIPTION (description values)
  ++ text_call groupid JSONDESCRIPTION (jsondescription values).

(** A backend on which every upload stores the file under [ids] and every
    settings update answers 200, whatever happened before. *)
Definition all_succeed (w : Backend) (ids : File -> string) : Prop :=
  (forall h f, upload_answer w h f = Fulfilled (Some {| uuid := ids f |}))
  /\ (forall f, ids f <> "")
  /\ (forall h g tag value path,
        settings_answer w h g tag value path = Fulfilled {| status := 200 |}).

(** Modelled from the spec: what [onUpdateGroupGallery] persists (the server
    action is not part of these sources).  "Each successful image commit is
    a separate persisted gallery entry": the entries are the values of the
    commits of the trace that the backend answered with status 200. *)
Fixpoint persisted_after (w : Backend) (h tr : list event) : list string :=
  match tr with
  | [] => []
  | e :: tr' =>
      (match e with
       | UpdateGroupGallery g value =>
           match gallery_answer w h g value with
           | Fulfilled (Some r) => if Z.eqb (mstatus r) 200 then [value] else []
           | _ => []
           end
       | _ => []
       end) ++ persisted_after w (h ++ [e]) tr'
  end.

Definition persisted_gallery (w : Backend) (tr : list event) : list string :=
  persisted_after w [] tr.

(** ** Sample backends and submissions *)

Definition stored_id (f : File) : string := "uuid:" ++ f.

(** Everything succeeds. *)
Definition backend_ok : Backend := {|
  upload_answer := fun _ f => Fulfilled (Some {| uuid := stored_id f |});
  settings_answer := fun _ _ _ _ _ => Fulfilled {| status := 200 |};
  gallery_answer := fun _ _ _ =>
    Fulfilled (Some {| mstatus := 200; message := None |});
  domain_answer := fun _ _ _ =>
    Fulfilled {| mstatus := 200; message := Some "Domain added" |}
|}.

(** The upload service stores every file except [bad], for which it
    returns nothing; the domain action refuses. *)
Definition backend_rejecting (bad : File) : Backend := {|
  upload_answer := fun _ f =>
    if String.eqb f bad then Fulfilled None
    else Fulfilled (Some {| uuid := stored_id f |});
  settings_answer := fun _ _ _ _ _ => Fulfilled {| status := 200 |};
  gallery_answer := fun _ _ _ =>
    Fulfilled (Some {| mstatus := 200; message := None |});
  domain_answer := fun _ _ _ =>
    Fulfilled {| mstatus := 400; message := Some "Invalid domain" |}
|}.

Definition no_values : GroupSettingsValues := {|
  thumbnail := None; icon := None; name := None;
  description := None; jsondescription := None; htmldescription := None
|}.

Definition cleared_values : GroupSettingsValues := {|
  thumbnail := Some []; icon := Some []; name := None;
  description := None; jsondescription := None; htmldescription := None
|}.

Definition only_name : GroupSettingsValues := {|
  thumbnail := Some []; icon := Some []; name := Some "Alpha";
  description := None; jsondescription := None; htmldescription := None
|}.

Definition thumbnail_and_name : GroupSettingsValues := {|
  thumbnail := Some ["cover.png"]; icon := Some []; name := Some "Alpha";
  description := None; jsondescription := None; htmldescription := None
|}.

Definition thumbnail_without_icon : GroupSettingsValues := {|
  thumbnail := Some ["cover.png"]; icon := None; name := None;
  description := None; jsondescription := None; htmldescription := None
|}.

(** [state[user][0].member.userid], when there is such a payload. *)
Definition first_userid (state : PresenceState) (user : string)
    : option string :=
  match state_get state user with
  | Some (p :: _) => Some (userid (member p))
  | _ => None
  end.

Definition sample_presence : PresenceState :=
  [("client-1", [{| member := {| userid := "u1" |} |};
                 {| member := {| userid := "u1-bis" |} |}]);
   ("client-2", [{| member := {| userid := "u2" |} |}])].

(** The settings action answers 500; uploads succeed. *)
Definition backend_refusing : Backend := {|
  upload_answer := fun _ f => Fulfilled (Some {| uuid := stored_id f |});
  settings_answer := fun _ _ _ _ _ => Fulfilled {| status := 500 |};
  gallery_answer := fun _ _ _ =>
    Fulfilled (Some {| mstatus := 500; message := Some "Oops" |});
  domain_answer := fun _ _ _ =>
    Fulfilled {| mstatus := 500; message := Some "Oops" |}
|}.

Definition name_and_description : GroupSettingsValues := {|
  thumbnail := Some []; icon := Some []; name := Some "Alpha";
  description := Some "A group about formal proofs";
  jsondescription := None; htmldescription := None
|}.

(** The step of a file field fails, run after the trace [h]: the upload
    rejects, returns nothing or returns no uuid, or the update call
    rejects or answers a status other than 200. *)
Definition attempt_fails (w : Backend) (h : list event) (groupid : string)
    (tag : GroupField) (f : File) : Prop :=
  match upload_answer w h f with
  | Rejected _ => True
  | Fulfilled None => True
  | Fulfilled (Some up) =>
      uuid up = ""
      \/ match settings_answer w (h ++ [UploadFile f]) groupid tag (uuid up)
                 (settings_path groupid) with
         | Rejected _ => True
         | Fulfilled r => status r <> 200%Z
         end
  end.

(** [m] extends the trace by settings updates whose tags are a prefix of
    [expected], and by all of [expected] when it completes normally. *)
Definition issues {A} (m : M A) (expected : list GroupField) : Prop :=
  forall w h, exists evs,
    snd (m w h) = h ++ evs
    /\ is_prefix (call_tags evs) expected
    /\ (forall a, fst (m w h) = Normal a -> call_tags evs = expected).

(** On backend [w], [m] completes normally and the settings updates it
    issues are exactly [expected]. *)
Definition completes_with {A} (w : Backend) (m : M A) (expected : list event)
    : Prop :=
  forall h, exists a evs,
    m w h = (Normal a, h ++ evs)
    /\ filter is_settings_call evs = expected.

(** However [m] completes on backend [w], the settings updates it issues
    are exactly [expected]. *)
Definition calls_of {A} (w : Backend) (m : M A) (expected : list event)
    : Prop :=
  forall h, exists evs,
    snd (m w h) = h ++ evs /\ filter is_settings_call evs = expected.

(** Uploads and commits alternate, an upload first: no file is uploaded
    before the one before it was committed. *)
Fixpoint one_at_a_time (calls : list event) : bool :=
  match calls with
  | [] => true
  | UploadFile _ :: calls' =>
      match calls' with
      | [] => true
      | UpdateGroupGallery _ _ :: calls'' => one_at_a_time calls''
      | _ => false
      end
  | _ => false
  end.

(** Nothing leaves the client once an error toast was shown. *)
Fixpoint no_call_after_error (tr : list event) : bool :=
  match tr with
  | [] => true
  | e :: tr' =>
      if is_error_toast e
      then forallb (fun e' => negb (is_network_call e')) tr'
      else no_call_after_error tr'
  end.

(** What the trace shows for a file that was uploaded and committed. *)
Definition committed_events (groupid : string) (ups : File -> string)
    (f : File) : list event :=
  [UploadFile f; UpdateGroupGallery groupid (ups f); ConsoleLog "increment"].

(** The file [bad] fails on backend [w]: its upload returns nothing, or
    its commit is answered by nothing or by a status other than 200. *)
Definition fails_on (w : Backend) (groupid : string) (bad : File) : Prop :=
  (forall h, upload_answer w h bad = Fulfilled None)
  \/ (exists up answer,
        (forall h, upload_answer w h bad = Fulfilled (Some up))
        /\ (forall h, gallery_answer w h groupid (uuid up) = Fulfilled answer)
        /\ match answer with
           | Some r => mstatus r <> 200%Z
           | None => True
           end).

(** The batch of images of a submission. *)
Definition batch (values : UpdateGalleryValues) : list File :=
  match image values with Some files => files | None => [] end.

(** The commit of the video URL of a submission, when it has one. *)
Definition video_call (groupid : string) (values : UpdateGalleryValues)
    : list event :=
  match videourl values with
  | Some url =>
      if String.eqb url "" then [] else [UpdateGroupGallery groupid url]
  | None => []
  end.

Definition batch_abc : UpdateGalleryValues :=
  {| videourl := None; image := Some ["a.png"; "b.png"; "c.png"] |}.

(** A burst of input changes after the change to [value] at time [t]:
    every change alters the text of the input and comes less than 1000 ms
    after the one before it. *)
Fixpoint burst (t : Z) (value : string) (changes : list (Z * string))
    : Prop :=
  match changes with
  | [] => True
  | (t', value') :: changes' =>
      (t <= t' < t + 1000)%Z /\ value' <> value /\ burst t' value' changes'
  end.

(** The debounced value is up to date: it equals [query], and a timer
    still pending would only copy the same value. *)
Definition calm (st : SearchHook) : Prop :=
  debounce st = query st
  /\ match delayInputTimeoutId st with
     | Some (_, q) => q = query st
     | None => True
     end.

(** What every state reached from [mount] satisfies: a pending timer
    copies the current [query], and with no timer pending the debounced
    value is the current [query]. *)
Definition tracks_query (st : SearchHook) : Prop :=
  match delayInputTimeoutId st with
  | Some (_, q) => q = query st
  | None => debounce st = query st
  end.

(** The downstream queries of a time-stamped trace: when, and for what. *)
Definition fetches (tr : list (Z * event)) : list (Z * string) :=
  flat_map (fun te =>
    match snd te with Refetch term => [(fst te, term)] | _ => [] end) tr.

(** The events of a time-stamped trace that leave the client. *)
Definition network_events (tr : list (Z * event)) : list (Z * event) :=
  filter (fun te => is_network_call (snd te)) tr.

(** A call the backend did not serve, [h] being the trace before it: an
    upload that rejects, returns nothing or returns no uuid; a settings
    update that rejects or is answered with a status other than 200. *)
Definition call_failed (w : Backend) (h : list event) (e : event) : bool :=
  match e with
  | UploadFile f =>
      match upload_answer w h f with
      | Fulfilled (Some up) => String.eqb (uuid up) ""
      | _ => true
      end
  | UpDateGroupSettings g tag value path =>
      match settings_answer w h g tag value path with
      | Fulfilled r => negb (Z.eqb (status r) 200)
      | Rejected _ => true
      end
  | _ => false
  end.

(** Every call of the trace [tr], logged after [h], was served. *)
Fixpoint all_calls_served (w : Backend) (h tr : list event) : bool :=
  match tr with
  | [] => true
  | e :: tr' =>
      negb (call_failed w h e) && all_calls_served w (h ++ [e]) tr'
  end.

(** Nothing leaves the client after the first call of [tr] that was not
    served. *)
Fixpoint stops_at_failed_call (w : Backend) (h tr : list event) : bool :=
  match tr with
  | [] => true
  | e :: tr' =>
      if call_failed w h e
      then forallb (fun e' => negb (is_network_call e')) tr'
      else stops_at_failed_call w (h ++ [e]) tr'
  end.

(** A step [m] of a submission stops at a failed call; it completes
    normally exactly when all its calls were served, and has then issued
    the updates [expected]. *)
Definition step_stops {A} (m : M A) (expected : list GroupField) : Prop :=
  forall w h, exists evs,
    snd (m w h) = h ++ evs
    /\ stops_at_failed_call w h evs = true
    /\ (all_calls_served w h evs = true -> exists a, fst (m w h) = Normal a)
    /\ (forall a, fst (m w h) = Normal a ->
        all_calls_served w h evs = true /\ call_tags evs = expected).

(** A submission [m] stops at a failed call, and when all its calls were
    served it has issued the updates [expected]. *)
Definition submission_stops {A} (m : M A) (expected : list GroupField)
    : Prop :=
  forall w h, exists evs,
    snd (m w h) = h ++ evs
    /\ stops_at_failed_call w h evs = true
    /\ (all_calls_served w h evs = true -> call_tags evs = expected).

(** * Further definitions: outcomes of the mutations and the other hooks *)

Definition length_type_error : exn :=
  TypeError "Cannot read properties of undefined (reading 'length')".

Definition settings_success : event :=
  Toast "Success" (Some "Group data updated").

Definition is_text_tag (tag : GroupField) : bool :=
  match tag with
  | NAME | DESCRIPTION | JSONDESCRIPTION => true
  | _ => false
  end.

(** The events [evs], logged after the trace [h], end with the update of
    a text field that the backend rejected with reason [e]. *)
Definition thrown_at_update (text_tag : GroupField -> bool) (w : Backend)
    (h : list event) (e : exn) (evs : list event) : Prop :=
  exists pre g tag value path,
    evs = pre ++ [UpDateGroupSettings g tag value path]
    /\ text_tag tag = true
    /\ settings_answer w (h ++ pre) g tag value path = Rejected e.

(** How a part [m] of a submit mutation reports.  Completing normally it
    has shown no toast and issued the calls [expected]; returning it has
    shown exactly one toast, an error, or else [success] with the calls
    [expected] issued and [P]; throwing it has shown no toast, and the
    error is the [TypeError] of an undefined file list or the rejection of
    a text-field update. *)
Definition reports {A} (success : event) (text_tag : GroupField -> bool)
    (P : Prop) (m : M A) (expected : list GroupField) : Prop :=
  forall w h, exists evs,
    snd (m w h) = h ++ evs
    /\ match fst (m w h) with
       | Normal _ => filter is_toast evs = [] /\ call_tags evs = expected
       | Returned =>
           exists t, filter is_toast evs = [t]
             /\ (is_error_toast t = true
                 \/ (t = success /\ call_tags evs = expected /\ P))
       | Thrown e =>
           filter is_toast evs = []
           /\ (e = length_type_error \/ thrown_at_update text_tag w h e evs)
       end.

(** The first file of each file input that holds one: the only files the
    submit mutation ever hands to the upload service. *)
Definition first_files (values : GroupSettingsValues) : list File :=
  (match thumbnail values with Some (f :: _) => [f] | _ => [] end)
  ++ (match icon values with Some (f :: _) => [f] | _ => [] end).

(** What the settings mutation may log: uploads of a first file, updates
    of this group with the settings path, toasts and console output. *)
Definition settings_event_ok (groupid : string)
    (values : GroupSettingsValues) (e : event) : Prop :=
  match e with
  | UploadFile f => In f (first_files values)
  | UpDateGroupSettings g tag _ path =>
      g = groupid /\ path = settings_path groupid
      /\ In tag (present_fields values)
  | Toast _ _ | ConsoleError _ _ | ConsoleLog _ => True
  | _ => False
  end.

(** Every event [m] logs satisfies [ok], and the files it uploads are a
    prefix of [files], all of them when it completes normally. *)
Definition logs_only {A} (ok : event -> Prop) (m : M A) (files : list File)
    : Prop :=
  forall w h, exists evs,
    snd (m w h) = h ++ evs
    /\ Forall ok evs
    /\ is_prefix (uploads evs) files
    /\ (forall a, fst (m w h) = Normal a -> uploads evs = files).

(** Nothing answers: every call to the backend rejects. *)
Definition backend_offline : Backend := {|
  upload_answer := fun _ _ => Rejected (Error "fetch failed");
  settings_answer := fun _ _ _ _ _ => Rejected (Error "fetch failed");
  gallery_answer := fun _ _ _ => Rejected (Error "fetch failed");
  domain_answer := fun _ _ _ => Rejected (Error "fetch failed")
|}.

(** ** useGroupAbout: the description mutation, lines 547-602 *)

Definition about_path (groupid : string) : string := "/about/" ++ groupid.

Definition about_success : event :=
  Toast "Success" (Some "Group description updated").

(** Lines 550-562, 563-575 and 576-588: one shape, three fields. *)
Definition about_step (groupid : string) (tag : GroupField)
    (field : option string) : M unit :=
  match field with
  | Some value =>
      if String.eqb value "" then ret tt
      else
        updated <- onUpDateGroupSettings groupid tag value
                     (about_path groupid) ;;
        if Z.eqb (status updated) 200 then ret tt
        else toast "Error" (Some empty_form_text) ;; return_
  | None => ret tt
  end.

Definition about_mutationFn (groupid : string)
    (values : GroupSettingsValues) : M unit :=
  about_step groupid DESCRIPTION (description values) ;;
  about_step groupid JSONDESCRIPTION (jsondescription values) ;;
  about_step groupid HTMLDESCRIPTION (htmldescription values) ;;
  if negb (truthy (description values))
     && negb (truthy (jsondescription values))
     && negb (truthy (htmldescription values))
  then toast "Error" (Some empty_form_text) ;; return_
  else toast "Success" (Some "Group description updated") ;; return_.

(** The fields the description mutation sends, in its order. *)
Definition about_fields (values : GroupSettingsValues) : list GroupField :=
  (if truthy (description values) then [DESCRIPTION] else [])
  ++ (if truthy (jsondescription values) then [JSONDESCRIPTION] else [])
  ++ (if truthy (htmldescription values) then [HTMLDESCRIPTION] else []).

(** What the description mutation may log: updates of this group with the
    about path and a description tag, and toasts. *)
Definition about_event_ok (groupid : string) (e : event) : Prop :=
  match e with
  | UpDateGroupSettings g tag _ path =>
      g = groupid /\ path = about_path groupid
      /\ (tag = DESCRIPTION \/ tag = JSONDESCRIPTION \/ tag = HTMLDESCRIPTION)
  | Toast _ _ => True
  | _ => False
  end.

(** The backend rejects no settings update. *)
Definition answers_every_update (w : Backend) : Prop :=
  forall h g tag value path e,
    settings_answer w h g tag value path <> Rejected e.

Definition only_description : GroupSettingsValues := {|
  thumbnail := None; icon := None; name := None;
  description := Some "A group about formal proofs";
  jsondescription := None; htmldescription := None
|}.

(** ** useMediaGallery: what is left of it *)

Definition gallery_success : event :=
  Toast "Success" (Some "Group gallery updated").

(** The removal of a gallery item has its own action, so its own events. *)
Inductive removal_event :=
| RemoveGroupGallery (groupid mediaId : string)
| Shown (title : string) (description : option string).

(** The [mutationFn] of the ["remove-gallery-item"] mutation, lines
    678-688; [answer] is what [onRemoveGroupGallery] settles to. *)
Definition remove_mutationFn (answer : settled (option MessageResult))
    (groupid mediaId : string) : completion unit * list removal_event :=
  match answer with
  | Rejected e => (Thrown e, [RemoveGroupGallery groupid mediaId])
  | Fulfilled remove =>
      match remove with
      | Some r =>
          if Z.eqb (mstatus r) 200 then
            (Returned, [RemoveGroupGallery groupid mediaId;
                        Shown "Success" (Some "Media removed from gallery")])
          else
            (Returned, [RemoveGroupGallery groupid mediaId;
                        Shown "Error" (message r)])
      | None =>
          (Returned, [RemoveGroupGallery groupid mediaId;
                      Shown "Success" (Some "Media removed from gallery")])
      end
  end.



(** ** useGroupChatOnline: snapshots with a key that holds no payload *)

(** The ids read key by key until the first key without a first payload. *)
Fixpoint ids_until_missing (l : list (option string)) : list string :=
  match l with
  | Some id :: l' => id :: ids_until_missing l'
  | _ => []
  end.

Definition has_first_payload (state : PresenceState) (user : string) : bool :=
  match first_userid state user with Some _ => true | None => false end.

Definition member_type_error : exn :=
  TypeError "Cannot read properties of undefined (reading 'member')".

Definition presence_with_gap : PresenceState :=
  [("client-1", [{| member := {| userid := "u1" |} |}]);
   ("client-2", []);
   ("client-3", [{| member := {| userid := "u3" |} |}])].

(** ** useSearch: what never happens, and changes that come slowly *)

(** Changes after the change to [value] at time [t], each altering the
    text and each at least 1000 ms after the one before it. *)
Fixpoint spaced (t : Z) (value : string) (changes : list (Z * string))
    : Prop :=
  match changes with
  | [] => True
  | (t', value') :: changes' =>
      (t + 1000 <= t')%Z /\ value' <> value /\ spaced t' value' changes'
  end.

(** What the second effect does for each change once it is debounced. *)
Definition debounced_effects (search : SearchKind)
    (changes : list (Z * string)) : list (Z * event) :=
  flat_map (fun change =>
    stamp (fst change + 1000) (debounce_effect search (snd change))) changes.

(** The network call that goes with a downstream query of a ["GROUPS"]
    search. *)
Definition group_search_of (fetch : Z * string) : Z * event :=
  (fst fetch, SearchGroups "GROUPS" (snd fetch)).

(** The trace of a mounted hook is sound: no query carries an empty term,
    a ["POSTS"] search has made no network call, and the network calls of
    a ["GROUPS"] search are its queries, one call each. *)
Definition sound_trace (search : SearchKind) (tr : list (Z * event)) : Prop :=
  Forall (fun fetch => snd fetch <> "") (fetches tr)
  /\ network_events tr
     = match search with
       | GROUPS => map group_search_of (fetches tr)
       | POSTS => []
       end.

(** A downstream query answers a change of the input: its term is not
    empty, and one of [changes] typed that term 1000 ms before the query,
    the delay of the timer of lines 141-143. *)
Definition answers_a_change (changes : list (Z * string))
    (fetch : Z * string) : Prop :=
  snd fetch <> "" /\ In ((fst fetch - 1000)%Z, snd fetch) changes.

(** The queries still to come from the pending timer: one when it holds a
    term that is not empty, none otherwise. *)
Definition pending_queries (st : SearchHook) : nat :=
  match delayInputTimeoutId st with
  | Some (_, q) => if String.eqb q "" then 0 else 1
  | None => 0
  end.

(** What the hook keeps true of the changes [seen] so far: every query
    issued answers one of them, the pending timer holds the empty text of
    the mount or a term one of them typed 1000 ms before its deadline, and
    the queries issued or pending are no more than the changes. *)
Definition debounced_trace (seen : list (Z * string)) (st : SearchHook)
    : Prop :=
  Forall (answers_a_change seen) (fetches (happened st))
  /\ match delayInputTimeoutId st with
     | Some (deadline, q) => q = "" \/ In ((deadline - 1000)%Z, q) seen
     | None => True
     end
  /\ List.length (fetches (happened st)) + pending_queries st
     <= List.length seen.

(** ** useGroupSettings: the mutation in the query client, the previews *)

(** The promise of an async function whose body is [m]: a [return]
    fulfils it, a throw rejects it. *)
Definition fulfils (m : M unit) : M unit :=
  fun w h =>
    match m w h with
    | (Returned, h') => (Normal tt, h')
    | r => r
    end.

(** One [update(values)] of the ["group-settings"] mutation, lines
    280-390: [mutationFn], then [onSuccess] (lines 385-389) when its
    promise fulfils; a rejection is swallowed by [mutate]. *)
Definition settings_update (groupid : string) (values : GroupSettingsValues)
    : M unit :=
  try_catch
    (fulfils (settings_mutationFn groupid values) ;;
     emit (InvalidateQueries "group-info"))
    (fun _ => ret tt).

(** When [m] returns, the last thing it has done is show a toast. *)
Definition returns_at_toast {A} (m : M A) : Prop :=
  forall w h, exists evs,
    snd (m w h) = h ++ evs
    /\ (fst (m w h) = Returned ->
        exists pre t, evs = pre ++ [t] /\ is_toast t = true).

Inductive preview_event :=
| SetPreviewIcon (file : File)
| SetPreviewThumbnail (file : File).

(** The callback given to [watch], lines 255-263, on the current form
    values; [URL.createObjectURL(file)] is identified with [file]. *)
Definition previews (values : GroupSettingsValues)
    : completion unit * list preview_event :=
  match icon values with
  | None => (Returned, [])
  | Some ic =>
      let shown :=
        match ic with file0 :: _ => [SetPreviewIcon file0] | [] => [] end in
      match thumbnail values with
      | None =>
          (Thrown
             (TypeError "Cannot read properties of undefined (reading '0')"),
           shown)
      | Some (file0 :: _) => (Normal tt, shown ++ [SetPreviewThumbnail file0])
      | Some [] => (Normal tt, shown)
      end
  end.

(** ** The group menu, [group-navbar/index.tsx] *)

(** An entry of [SAMAWA_CONSTANTS.groupPageMenu] (the constant is not
    part of these sources: the menu is a parameter). *)
Record MenuItem := { item_id : nat; item_label : string; item_path : string }.

Inductive Orientation := mobile | desktop.

(** What a rendered [Link] shows: its target, the section its click
    sets, whether it carries the highlight classes, whether the icon is
    rendered. *)
Record MenuLink := {
  href : string;
  sets_section : string;
  highlighted : bool;
  shows_icon : bool;
  link_label : string;
  link_key : nat
}.

Definition desktop_link (groupId section : string) (menuItem : MenuItem)
    : MenuLink :=
  let dynamicPath :=
    if String.eqb (item_path menuItem) "/courses"
    then ("/group/" ++ groupId ++ item_path menuItem)%string
    else ("/group/" ++ groupId ++ item_path menuItem)%string in
  {| href := dynamicPath;
     sets_section := item_path menuItem;
     highlighted := String.eqb section (item_path menuItem);
     shows_icon := String.eqb section (item_path menuItem);
     link_label := item_label menuItem;
     link_key := item_id menuItem |}.

Definition mobile_link (groupId section : string) (menuItem : MenuItem)
    : MenuLink :=
  let dynamicPath :=
    if String.eqb (item_path menuItem) "/courses"
    then ("/groups/" ++ groupId ++ item_path menuItem)%string
    else ("/groups/" ++ groupId ++ item_path menuItem)%string in
  {| href := dynamicPath;
     sets_section := item_path menuItem;
     highlighted := String.eqb section (item_path menuItem);
     shows_icon := true;
     link_label := item_label menuItem;
     link_key := item_id menuItem |}.

(** The links [Menu] renders for the current [section]. *)
Definition Menu (orientation : Orientation) (groupId section : string)
    (groupPageMenu : list MenuItem) : list MenuLink :=
  match orientation with
  | desktop => map (desktop_link groupId section) groupPageMenu
  | mobile => map (mobile_link groupId section) groupPageMenu
  end.

(** ** The media gallery, its remove button and its confirmation *)

(** The props of [MediaGallery], with the [isPending] it reads from its
    own call of [useMediaGallery] (line 24) and hands to every remove
    button as [disabled].  That flag belongs to the mutation observer this
    component creates, whose [mutate] it never calls; it says nothing of an
    upload started from the form, which calls the hook for itself.  It is
    kept as a field, so that what is proved holds whatever its value. *)
Record GalleryProps := {
  gallery : list string;
  gallery_groupid : string;
  gallery_userid : string;
  gallery_groupUserid : string;
  gallery_isPending : bool
}.

(** [AboutRemoveButton] is rendered for an entry: twice the same test, in
    [MediaGallery] and in the button itself. *)
Definition remove_button_rendered (props : GalleryProps) : bool :=
  String.eqb (gallery_userid props) (gallery_groupUserid props)
  && negb (negb (String.eqb (gallery_userid props)
                            (gallery_groupUserid props))).

(** The [disabled] attribute of the button, line 39 of the button: its
    own [isPending], [false] between two clicks, or the flag handed down. *)
Definition remove_button_disabled (props : GalleryProps) : bool :=
  false || gallery_isPending props.

(** The confirmation toasts that are open, each for a gallery entry, and
    what the removal mutation has logged. *)
Record GalleryUi := {
  confirmations : list string;
  removal_log : list removal_event
}.

Inductive click :=
| ClickTrash (index : nat)
| ClickRemove (index : nat)
| ClickCancel (index : nat).

(** One click.  [ClickTrash i] is a click on the remove button of entry
    [i]: [handleRemove(gal)] opens a confirmation toast that stays until
    dismissed.  [ClickRemove j] and [ClickCancel j] are clicks in the open
    confirmation [j]: the first calls [removeGalleryItem(mediaUrl)], and
    both call [toast.dismiss()], which closes every open toast.  A click
    on what is not rendered does nothing.  [answers] is what
    [onRemoveGroupGallery] settles to for an entry. *)
Definition gallery_click (answers : string -> settled (option MessageResult))
    (props : GalleryProps) (ui : GalleryUi) (c : click) : GalleryUi :=
  match c with
  | ClickTrash i =>
      if remove_button_rendered props && negb (remove_button_disabled props)
      then
        match nth_error (gallery props) i with
        | Some gal =>
            {| confirmations := confirmations ui ++ [gal];
               removal_log := removal_log ui |}
        | None => ui
        end
      else ui
  | ClickRemove j =>
      match nth_error (confirmations ui) j with
      | Some mediaUrl =>
          {| confirmations := [];
             removal_log :=
               removal_log ui
               ++ snd (remove_mutationFn (answers mediaUrl)
                         (gallery_groupid props) mediaUrl) |}
      | None => ui
      end
  | ClickCancel j =>
      match nth_error (confirmations ui) j with
      | Some _ => {| confirmations := []; removal_log := removal_log ui |}
      | None => ui
      end
  end.

Definition gallery_clicks (answers : string -> settled (option MessageResult))
    (props : GalleryProps) (clicks : list click) : GalleryUi :=
  fold_left (gallery_click answers props) clicks
    {| confirmations := []; removal_log := [] |}.

(** The entries handed to [onRemoveGroupGallery], in order. *)
Definition removal_calls (log : list removal_event) : list string :=
  flat_map (fun e =>
    match e with RemoveGroupGallery _ mediaId => [mediaId] | _ => [] end) log.

Definition is_trash (c : click) : bool :=
  match c with ClickTrash _ => true | _ => false end.

Definition is_remove (c : click) : bool :=
  match c with ClickRemove _ => true | _ => false end.

Definition sample_gallery : GalleryProps := {|
  gallery := ["uuid:a.png"; "https://www.loom.com/embed/42"];
  gallery_groupid := "g1";
  gallery_userid := "u1";
  gallery_groupUserid := "u2";
  gallery_isPending := false
|}.

(** What holds of the gallery after [trashes] clicks on a remove button
    and [removes] clicks on "Remove": the open confirmations and the
    removed entries are entries of the gallery, nothing is open or removed
    when the remove buttons cannot be clicked, and every removal has used
    up a click on a button and a click on "Remove". *)
Definition gallery_invariant (props : GalleryProps) (trashes removes : nat)
    (ui : GalleryUi) : Prop :=
  incl (confirmations ui) (gallery props)
  /\ incl (removal_calls (removal_log ui)) (gallery props)
  /\ (remove_button_rendered props && negb (remove_button_disabled props)
      = false ->
      confirmations ui = [] /\ removal_log ui = [])
  /\ List.length (removal_calls (removal_log ui))
     + (match confirmations ui with [] => 0 | _ => 1 end) <= trashes
  /\ List.length (removal_calls (removal_log ui)) <= removes.

(** * Properties *)

(** ** Groundwork: how statements compose *)

Lemma bind_normal {A B} (m : M A) (k : A -> M B) w h a h' :
  m w h = (Normal a, h') -> bind m k w h = k a w h'.
Proof. intros E. unfold bind. now rewrite E. Qed.

Lemma bind_returned {A B} (m : M A) (k : A -> M B) w h h' :
  m w h = (Returned, h') -> bind m k w h = (Returned, h').
Proof. intros E. unfold bind. now rewrite E. Qed.

Lemma bind_thrown {A B} (m : M A) (k : A -> M B) w h e h' :
  m w h = (Thrown e, h') -> bind m k w h = (Thrown e, h').
Proof. intros E. unfold bind. now rewrite E. Qed.

Lemma Z_eqb_200 (s : Z) : Z.eqb s 200 = true <-> s = 200%Z.
Proof. apply Z.eqb_eq. Qed.

(** ** useGroupInfo *)

(** C10: with no cached ["about-group-info"] entry ([data] undefined) the
    hook pushes ["/explore"] and then throws a [TypeError] at the
    destructuring instead of returning; it throws in no other case. *)
Theorem useGroupInfo_throws_without_data :
  forall (G : Type) (w : Backend),
    run (@useGroupInfo G None) w
    = (Thrown (TypeError
         "Cannot destructure property 'group' of 'data' as it is undefined."),
       [RouterPush "/explore"])
    /\ (forall data : option (GroupInfo G),
          (exists e, fst (run (useGroupInfo data) w) = Thrown e)
          <-> data = None).
Proof.
  intros G w. split; [reflexivity|].
  intros [d|]; split.
  - intros [e He]. unfold run, useGroupInfo, bind in He. simpl in He.
    destruct (Z.eqb (info_status d) 200); simpl in He; discriminate.
  - discriminate.
  - reflexivity.
  - intros _. eexists. reflexivity.
Qed.

(** ** useGroupSettings: the redirect *)

(** C8, as the code has it: the render pushes ["/group/create"] exactly
    when the status read through [data?.status] is not 200, which covers a
    fetch answered with another status and also a query that holds no data
    yet; with status 200 nothing is pushed. *)
Theorem settings_redirect_iff_status_not_200 :
  forall (G : Type) (w : Backend) (data : option (GroupInfo G)),
    let tr := snd (run (settings_redirect data) w) in
    (In (RouterPush "/group/create") tr
     <-> option_map info_status data <> Some 200%Z)
    /\ (option_map info_status data = Some 200%Z <-> tr = [])
    /\ (option_map info_status data <> Some 200%Z
        <-> tr = [RouterPush "/group/create"]).
Proof.
  intros G w [d|]; unfold run, settings_redirect; simpl.
  - destruct (Z.eqb (info_status d) 200) eqn:E; simpl.
    + apply Z.eqb_eq in E. rewrite E.
      repeat split; intros; try congruence; try contradiction.
    + apply Z.eqb_neq in E.
      repeat split; intros; try congruence; try discriminate; auto.
  - repeat split; intros; try congruence; try discriminate; auto.
Qed.

(** C8, the claim as worded fails: with no data in the query (nothing was
    fetched, so no status was returned) the redirect is issued all the
    same. *)
Lemma settings_redirect_without_answer :
  In (RouterPush "/group/create")
     (snd (run (settings_redirect (@None (GroupInfo unit))) backend_ok))
  /\ ~ (exists d : GroupInfo unit,
          @None (GroupInfo unit) = Some d /\ info_status d <> 200%Z).
Proof.
  split.
  - simpl. auto.
  - intros [d [H _]]. discriminate.
Qed.

(** ** useCustomDomain *)

(** C6: one [mutate] shows the "Success" toast iff the action fulfilled with
    status 200, the "Error" toast with the result's message iff it
    fulfilled with another status, at most one toast in all, and whatever
    the outcome (a rejection included) invalidates ["domain-config"]
    exactly once, as the last thing it does. *)
Theorem domain_mutation_notifies_and_invalidates :
  forall (w : Backend) (groupid domain : string),
    let tr := snd (run (domain_mutate groupid domain) w) in
    let answer := domain_answer w [FormReset] groupid domain in
    List.length (filter (is_invalidation "domain-config") tr) = 1
    /\ last tr FormReset = InvalidateQueries "domain-config"
    /\ (forall m, In (Toast "Success" m) tr
          <-> exists r, answer = Fulfilled r
                /\ mstatus r = 200%Z /\ m = message r)
    /\ (forall m, In (Toast "Error" m) tr
          <-> exists r, answer = Fulfilled r
                /\ mstatus r <> 200%Z /\ m = message r)
    /\ List.length (filter is_toast tr) <= 1.
Proof.
  intros w groupid domain.
  unfold run, domain_mutate, try_catch, bind, onAddCustomDomain, await,
    domain_onSuccess, domain_onSettled, toast, emit; simpl.
  destruct (domain_answer w [FormReset] groupid domain) as [r|e]; simpl.
  - destruct (Z.eqb (mstatus r) 200) eqn:E; simpl.
    + apply Z.eqb_eq in E.
      repeat split; try lia.
      * intros [H|[H|[H|[H|[]]]]]; try discriminate.
        inversion H; subst. exists r. auto.
      * intros [r' [H [_ ->]]]. inversion H; subst. auto.
      * intros [H|[H|[H|[H|[]]]]]; discriminate.
      * intros [r' [H [N _]]]. inversion H; subst. contradiction.
    + apply Z.eqb_neq in E.
      repeat split; try lia.
      * intros [H|[H|[H|[H|[]]]]]; discriminate.
      * intros [r' [H [N _]]]. inversion H; subst. contradiction.
      * intros [H|[H|[H|[H|[]]]]]; try discriminate.
        inversion H; subst. exists r. auto.
      * intros [r' [H [_ ->]]]. inversion H; subst. auto.
  - repeat split; try lia.
    + intros [H|[H|[H|[]]]]; discriminate.
    + intros [r' [H _]]. discriminate.
    + intros [H|[H|[H|[]]]]; discriminate.
    + intros [r' [H _]]. discriminate.
Qed.

(** ** useGroupChatOnline *)

Lemma state_get_first_payload (state : PresenceState) :
  Forall (fun entry => snd entry <> []) state ->
  forall user, In user (map fst state) ->
    exists p ps, state_get state user = Some (p :: ps).
Proof.
  induction 1 as [|[k ps] state Hps _ IH]; intros user Hin.
  - contradiction.
  - simpl in *. destruct (String.eqb k user) eqn:E.
    + destruct ps as [|p ps]; [contradiction|]. eauto.
    + destruct Hin as [->|Hin]; [now rewrite String.eqb_refl in E|auto].
Qed.

Lemma for_in_dispatches (state : PresenceState) w :
  forall keys h,
    (forall user, In user keys ->
       exists p ps, state_get state user = Some (p :: ps)) ->
    exists ids,
      for_in keys (fun user =>
        match state_get state user with
        | Some (p :: _) => emit (Dispatch (onOnline [userid (member p)]))
        | _ =>
            throw (TypeError
              "Cannot read properties of undefined (reading 'member')")
        end) w h
      = (Normal tt, h ++ map (fun id => Dispatch (onOnline [id])) ids)
      /\ map Some ids = map (first_userid state) keys.
Proof.
  induction keys as [|user keys IH]; intros h Hall.
  - exists []. simpl. now rewrite app_nil_r.
  - destruct (Hall user (or_introl eq_refl)) as [p [ps Hp]].
    destruct (IH (h ++ [Dispatch (onOnline [userid (member p)])])) as [ids [Hrun Hids]].
    { intros u Hu. apply Hall. now right. }
    exists (userid (member p) :: ids). split.
    + cbn [for_in]. unfold bind at 1. rewrite Hp. unfold emit at 1.
      rewrite Hrun. now rewrite <- app_assoc.
    + cbn [map]. unfold first_userid at 1. rewrite Hp. now rewrite Hids.
Qed.

Lemma online_ids_dispatches (ids : list string) :
  online_ids (map (fun id => Dispatch (onOnline [id])) ids) = ids.
Proof. induction ids as [|id ids IH]; simpl; [reflexivity|now rewrite IH]. Qed.

(** C7: on a sync event the listener reads the whole snapshot and, key by
    key in order, dispatches [onOnline] with the userid of that key's first
    payload: one dispatch per key of the snapshot, computed from the
    snapshot alone; and the subscribe callback tracks
    [{member: {userid}}] on the ["tracking"] channel when, and only when,
    the status is [SUBSCRIBED]. *)
Theorem presence_sync_emits_full_snapshot :
  forall (w : Backend) (state : PresenceState),
    Forall (fun entry => snd entry <> []) state ->
    let tr := snd (run (on_presence_sync state) w) in
    fst (run (on_presence_sync state) w) = Normal tt
    /\ map Some (online_ids tr) = map (first_userid state) (map fst state)
    /\ tr = ConsoleLogState state
            :: map (fun id => Dispatch (onOnline [id])) (online_ids tr)
    /\ (forall user status,
          run (on_subscribe user status) w
          = (Normal tt,
             match status with
             | SUBSCRIBED =>
                 [ChannelTrack "tracking" {| member := {| userid := user |} |}]
             | _ => []
             end)).
Proof.
  intros w state Hall tr.
  destruct (for_in_dispatches state w (map fst state) [ConsoleLogState state]
              (state_get_first_payload state Hall)) as [ids [Hrun Hids]].
  assert (E : run (on_presence_sync state) w
              = (Normal tt,
                 ConsoleLogState state
                 :: map (fun id => Dispatch (onOnline [id])) ids)).
  { unfold run, on_presence_sync. unfold bind at 1. unfold emit at 1.
    cbn [app]. exact Hrun. }
  subst tr. rewrite E. cbn [fst snd].
  assert (Eids : online_ids
            (ConsoleLogState state
             :: map (fun id => Dispatch (onOnline [id])) ids) = ids).
  { unfold online_ids at 1. cbn [flat_map app]. apply online_ids_dispatches. }
  rewrite Eids. repeat split; auto.
  intros user []; reflexivity.
Qed.

Lemma presence_sync_emits_full_snapshot_witness :
  Forall (fun entry : string * list Presence => snd entry <> []) sample_presence
  /\ map Some
       (online_ids (snd (run (on_presence_sync sample_presence) backend_ok)))
     = [Some "u1"; Some "u2"].
Proof.
  assert (H : Forall (fun entry : string * list Presence => snd entry <> [])
                sample_presence).
  { repeat constructor; discriminate. }
  split; [exact H|].
  exact (proj1 (proj2
    (presence_sync_emits_full_snapshot backend_ok sample_presence H))).
Defined.

(** ** useGroupSettings: the submit mutation *)

Lemma text_step_falsy groupid tag field :
  truthy field = false -> text_step groupid tag field = ret tt.
Proof.
  destruct field as [[|c s]|]; simpl; intros H;
    reflexivity || discriminate.
Qed.

Ltac unfold_settings :=
  unfold run, settings_mutationFn, thumbnail_step, icon_step, text_step,
    form_is_empty, files_length, try_catch, bind, onUpDateGroupSettings,
    upload_uploadFile, await, toast, emit, throw, return_, ret.

(** Case analysis on what the collaborators answer. *)
Ltac ask_backend :=
  match goal with
  | |- context [upload_answer ?w ?h ?f] =>
      let E := fresh "Eup" in
      destruct (upload_answer w h f) as [[[[|? ?]]|]|?] eqn:E
  | |- context [settings_answer ?w ?h ?g ?t ?x ?p] =>
      let E := fresh "Eset" in
      let S := fresh "Est" in
      destruct (settings_answer w h g t x p) as [[?]|?] eqn:E;
      [cbn [status];
       match goal with
       | |- context [Z.eqb ?s 200] => destruct (Z.eqb s 200) eqn:S
       end|]
  end; cbn -[settings_path].

Ltac in_trace :=
  unfold empty_form_text in *; cbn -[settings_path] in *;
  intuition (try discriminate; try congruence).

(** When the two file inputs are defined and empty and no text field is
    set, the mutation calls nothing and reports the empty form. *)
Lemma cleared_form_reports_empty (w : Backend) (groupid : string)
    (values : GroupSettingsValues) :
  thumbnail values = Some [] -> icon values = Some [] ->
  truthy (name values) = false -> truthy (description values) = false ->
  truthy (jsondescription values) = false ->
  run (settings_mutationFn groupid values) w
  = (Returned, [ConsoleLog "DESCRIPTION";
                Toast "Error" (Some empty_form_text)]).
Proof.
  intros Ht Hi Hn Hd Hj.
  unfold run, settings_mutationFn, thumbnail_step, icon_step, form_is_empty.
  rewrite Ht, Hi, Hn, Hd, Hj, !text_step_falsy by assumption.
  reflexivity.
Qed.

(** C3, on the code: a submission in which no field at all is present
    (the file inputs undefined) makes the mutation throw a [TypeError] at
    [values.thumbnail.length]; it performs no network call, and it reports
    no notification either. *)
Theorem empty_submission_throws :
  forall (w : Backend) (groupid : string),
    present_fields no_values = []
    /\ run (settings_mutationFn groupid no_values) w
       = (Thrown (TypeError
            "Cannot read properties of undefined (reading 'length')"),
          [ConsoleLog "DESCRIPTION"]).
Proof. intros w groupid. split; reflexivity. Qed.

(** C9, the claim as worded fails: with a thumbnail picked and uploaded,
    an undefined [icon] is never read ([&&] stops at
    [!values.thumbnail.length]) and the mutation ends with the success
    toast instead of throwing. *)
Lemma undefined_icon_is_not_always_read :
  icon thumbnail_without_icon = None
  /\ truthy (name thumbnail_without_icon) = false
  /\ truthy (description thumbnail_without_icon) = false
  /\ truthy (jsondescription thumbnail_without_icon) = false
  /\ run (settings_mutationFn "g1" thumbnail_without_icon) backend_ok
     = (Returned,
        [UploadFile "cover.png";
         UpDateGroupSettings "g1" IMAGE "uuid:cover.png" "/group/g1/settings";
         ConsoleLog "DESCRIPTION";
         Toast "Success" (Some "Group data updated")])
  /\ ~ (exists e,
          fst (run (settings_mutationFn "g1" thumbnail_without_icon)
                 backend_ok) = Thrown e).
Proof.
  split; [reflexivity|]. split; [reflexivity|]. split; [reflexivity|].
  split; [reflexivity|]. split; [reflexivity|].
  intros [e He]. discriminate.
Qed.

(** C9, as the code has it.  With name, description and jsondescription
    absent: the empty-form toast is reached only if both file inputs are
    defined and empty; the mutation throws exactly when [thumbnail] is
    undefined and the icon step did not fail, or [thumbnail] is an empty
    list and [icon] is undefined; in particular, when nothing at all is
    picked and either input is undefined, it throws a [TypeError] with no
    toast and no network call. *)
Theorem empty_form_check_needs_file_lists :
  forall (w : Backend) (groupid : string) (values : GroupSettingsValues),
    truthy (name values) = false ->
    truthy (description values) = false ->
    truthy (jsondescription values) = false ->
    let c := fst (run (settings_mutationFn groupid values) w) in
    let tr := snd (run (settings_mutationFn groupid values) w) in
    (In (Toast "Error" (Some empty_form_text)) tr
       -> thumbnail values = Some [] /\ icon values = Some [])
    /\ ((exists e, c = Thrown e)
        <-> (thumbnail values = None
             /\ ~ In (Toast "Error" (Some "Failed to update icon.")) tr)
            \/ (thumbnail values = Some [] /\ icon values = None))
    /\ ((thumbnail values = None /\ has_file (icon values) = false)
        \/ (thumbnail values = Some [] /\ icon values = None)
        -> c = Thrown (TypeError
                 "Cannot read properties of undefined (reading 'length')")
           /\ filter is_toast tr = []
           /\ filter is_network_call tr = []).
Proof.
  intros w groupid [th ic nm ds js ht]; cbn [name description jsondescription
    thumbnail icon]; intros Hn Hd Hj.
  unfold run, settings_mutationFn, form_is_empty.
  cbn [name description jsondescription thumbnail icon].
  rewrite !text_step_falsy, Hn, Hd, Hj by assumption.
  destruct th as [[|tf tl]|]; destruct ic as [[|icf icl]|];
    unfold_settings; cbn -[settings_path];
    repeat ask_backend;
    (split; [|split]);
    try solve [in_trace];
    try solve [split; [intros _; in_trace | intros _; eexists; reflexivity]];
    try solve [split; [intros [e He]; discriminate | in_trace]].
Qed.

Lemma empty_form_check_needs_file_lists_witness :
  truthy (name no_values) = false
  /\ truthy (description no_values) = false
  /\ truthy (jsondescription no_values) = false
  /\ fst (run (settings_mutationFn "g1" no_values) backend_ok)
     = Thrown (TypeError
         "Cannot read properties of undefined (reading 'length')").
Proof.
  split; [reflexivity|]. split; [reflexivity|]. split; [reflexivity|].
  apply (proj2 (proj2 (empty_form_check_needs_file_lists
                         backend_ok "g1" no_values eq_refl eq_refl eq_refl))).
  left. split; reflexivity.
Defined.

Lemma call_tags_app (l l' : list event) :
  call_tags (l ++ l') = call_tags l ++ call_tags l'.
Proof. unfold call_tags. apply flat_map_app. Qed.

Lemma uploads_app (l l' : list event) :
  uploads (l ++ l') = uploads l ++ uploads l'.
Proof. unfold uploads. apply flat_map_app. Qed.

Lemma last_after {A} (l l' : list A) (x d : A) :
  last (l ++ l' ++ [x]) d = x.
Proof. now rewrite app_assoc, last_last. Qed.

(** Picks the events before the final toast out of a computed trace. *)
Ltac split_off_toast :=
  rewrite <- ?app_assoc; cbn [app];
  match goal with
  | |- exists evs, (_, ?h ++ ?l) = _ /\ _ => exists (removelast l)
  end;
  cbn -[settings_path]; intuition (try discriminate; try congruence).

Lemma thumbnail_step_failing w groupid values h f others :
  thumbnail values = Some (f :: others) ->
  attempt_fails w h groupid IMAGE f ->
  exists evs,
    thumbnail_step groupid values w h
    = (Returned,
       h ++ evs ++ [Toast "Error" (Some "Failed to update thumbnail.")])
    /\ filter is_toast evs = []
    /\ uploads evs = [f]
    /\ (forall t, In t (call_tags evs) -> t = IMAGE).
Proof.
  intros Ht. unfold attempt_fails, thumbnail_step. rewrite Ht.
  unfold_settings. cbn -[settings_path].
  repeat ask_backend; rewrite ?Z.eqb_eq in *; intros Hfail;
    try solve [exfalso; intuition (try discriminate; try congruence)];
    split_off_toast.
Qed.

Lemma icon_step_failing w groupid values h f others :
  icon values = Some (f :: others) ->
  attempt_fails w h groupid ICON f ->
  exists evs,
    icon_step groupid values w h
    = (Returned,
       h ++ evs ++ [Toast "Error" (Some "Failed to update icon.")])
    /\ filter is_toast evs = []
    /\ uploads evs = [f]
    /\ (forall t, In t (call_tags evs) -> t = ICON).
Proof.
  intros Hi. unfold attempt_fails, icon_step. rewrite Hi.
  unfold_settings. cbn -[settings_path].
  repeat ask_backend; rewrite ?Z.eqb_eq in *; intros Hfail;
    try solve [exfalso; intuition (try discriminate; try congruence)];
    split_off_toast.
Qed.

(** A thumbnail step that completes normally has shown no toast and has
    updated nothing but the thumbnail. *)
Lemma thumbnail_step_completed w groupid values h h' :
  thumbnail_step groupid values w h = (Normal tt, h') ->
  exists evs, h' = h ++ evs
    /\ filter is_toast evs = []
    /\ (forall t, In t (call_tags evs) -> t = IMAGE).
Proof.
  unfold thumbnail_step.
  destruct (thumbnail values) as [[|tf tl]|].
  1, 3: intros E; inversion E; subst; exists []; rewrite app_nil_r;
    repeat split; contradiction.
  unfold_settings; cbn -[settings_path].
  repeat ask_backend; intros E; inversion E; subst;
    rewrite <- ?app_assoc; eexists; (split; [reflexivity|]);
    cbn -[settings_path]; intuition.
Qed.

(** C2, the claim as worded fails: the thumbnail upload returns nothing,
    the name is present and non-empty, and no update call is made for it:
    the mutation has returned at the thumbnail's error toast. *)
Lemma failed_thumbnail_stops_name_update :
  present_fields thumbnail_and_name = [IMAGE; NAME]
  /\ run (settings_mutationFn "g1" thumbnail_and_name)
         (backend_rejecting "cover.png")
     = (Returned,
        [UploadFile "cover.png";
         ConsoleError "Thumbnail Error:" (Error "Thumbnail upload failed.");
         Toast "Error" (Some "Failed to update thumbnail.")])
  /\ ~ In NAME
         (call_tags (snd (run (settings_mutationFn "g1" thumbnail_and_name)
                            (backend_rejecting "cover.png")))).
Proof. split; [|split]; [reflexivity|reflexivity|intros []]. Qed.

(** C2, as the code has it: when the thumbnail step fails, its error toast
    is the last thing the mutation does: it returns there, the icon is not
    uploaded and no later field is updated.  When the thumbnail step has
    completed and the icon step fails, the mutation returns at the icon's
    error toast and neither name, description nor jsondescription is
    updated. *)
Theorem file_failure_ends_submission :
  forall (w : Backend) (groupid : string) (values : GroupSettingsValues)
         (f : File) (others : list File),
    (thumbnail values = Some (f :: others) ->
     attempt_fails w [] groupid IMAGE f ->
     let tr := snd (run (settings_mutationFn groupid values) w) in
     fst (run (settings_mutationFn groupid values) w) = Returned
     /\ last tr FormReset = Toast "Error" (Some "Failed to update thumbnail.")
     /\ List.length (filter is_toast tr) = 1
     /\ uploads tr = [f]
     /\ (forall t, In t (call_tags tr) -> t = IMAGE))
    /\ (forall h,
          icon values = Some (f :: others) ->
          thumbnail_step groupid values w [] = (Normal tt, h) ->
          attempt_fails w h groupid ICON f ->
          let tr := snd (run (settings_mutationFn groupid values) w) in
          fst (run (settings_mutationFn groupid values) w) = Returned
          /\ last tr FormReset = Toast "Error" (Some "Failed to update icon.")
          /\ List.length (filter is_toast tr) = 1
          /\ (forall t, In t (call_tags tr) -> t = IMAGE \/ t = ICON)).
Proof.
  intros w groupid values f others. split.
  - intros Ht Hfail.
    destruct (thumbnail_step_failing _ _ _ _ _ _ Ht Hfail)
      as [evs [Hrun [Htoast [Hup Htags]]]].
    unfold run, settings_mutationFn.
    rewrite (bind_returned _ _ _ _ _ Hrun). cbn [fst snd app].
    rewrite last_last, filter_app, uploads_app, call_tags_app, Htoast, Hup.
    cbn. rewrite app_nil_r. repeat split; auto.
  - intros h Hi Hthumb Hfail.
    destruct (thumbnail_step_completed _ _ _ _ _ Hthumb)
      as [evs0 [-> [Htoast0 Htags0]]].
    destruct (icon_step_failing _ _ _ _ _ _ Hi Hfail)
      as [evs [Hrun [Htoast [Hup Htags]]]].
    unfold run, settings_mutationFn.
    rewrite (bind_normal _ _ _ _ _ _ Hthumb).
    rewrite (bind_returned _ _ _ _ _ Hrun). cbn [fst snd app].
    rewrite last_after, !filter_app, !call_tags_app, Htoast0, Htoast.
    cbn. rewrite app_nil_r. repeat split; auto.
    intros t Hin. apply in_app_or in Hin as [Hin|Hin]; auto.
Qed.

Lemma file_failure_ends_submission_witness :
  thumbnail thumbnail_and_name = Some ["cover.png"]
  /\ attempt_fails (backend_rejecting "cover.png") [] "g1" IMAGE "cover.png"
  /\ fst (run (settings_mutationFn "g1" thumbnail_and_name)
            (backend_rejecting "cover.png")) = Returned.
Proof.
  split; [reflexivity|]. split; [exact I|].
  exact (proj1 (proj1 (file_failure_ends_submission
                         (backend_rejecting "cover.png") "g1"
                         thumbnail_and_name "cover.png" [])
                      eq_refl I)).
Defined.

(** *** The calls of a submission, step by step *)

Lemma is_prefix_refl {A} (l : list A) : is_prefix l l.
Proof. exists []. now rewrite app_nil_r. Qed.

Lemma is_prefix_nil {A} (l : list A) : is_prefix [] l.
Proof. now exists l. Qed.

Lemma is_prefix_app_r {A} (l l1 l2 : list A) :
  is_prefix l l1 -> is_prefix l (l1 ++ l2).
Proof. intros [r ->]. exists (r ++ l2). now rewrite app_assoc. Qed.

Lemma is_prefix_app_l {A} (l l1 l2 : list A) :
  is_prefix l1 l2 -> is_prefix (l ++ l1) (l ++ l2).
Proof. intros [r ->]. exists r. now rewrite app_assoc. Qed.

Lemma issues_bind {A B} (m : M A) (k : A -> M B) e1 e2 :
  issues m e1 -> (forall a, issues (k a) e2) -> issues (bind m k) (e1 ++ e2).
Proof.
  intros Hm Hk w h. destruct (Hm w h) as [ev1 [E1 [P1 N1]]].
  unfold bind. destruct (m w h) as [[a| |e] h'] eqn:Em; cbn [fst snd] in *;
    subst h'.
  - destruct (Hk a w (h ++ ev1)) as [ev2 [E2 [P2 N2]]].
    exists (ev1 ++ ev2). rewrite call_tags_app, (N1 a eq_refl).
    repeat split.
    + now rewrite E2, app_assoc.
    + now apply is_prefix_app_l.
    + intros b Hb. now rewrite (N2 b Hb).
  - exists ev1. repeat split; [now apply is_prefix_app_r | discriminate].
  - exists ev1. repeat split; [now apply is_prefix_app_r | discriminate].
Qed.

Lemma issues_nothing {A} (m : M A) :
  (forall w h, exists evs, snd (m w h) = h ++ evs /\ call_tags evs = []) ->
  issues m [].
Proof.
  intros H w h. destruct (H w h) as [evs [E T]]. exists evs.
  rewrite T. repeat split; auto. apply is_prefix_nil.
Qed.

Lemma issues_thumbnail_step groupid values :
  issues (thumbnail_step groupid values)
         (if has_file (thumbnail values) then [IMAGE] else []).
Proof.
  intros w h. unfold thumbnail_step.
  destruct (thumbnail values) as [[|tf tl]|]; cbn [has_file].
  1, 3: exists []; rewrite app_nil_r; repeat split; apply is_prefix_nil.
  unfold_settings. cbn -[settings_path].
  repeat ask_backend; rewrite <- ?app_assoc; eexists;
    (split; [reflexivity|]); cbn -[settings_path];
    (split; [apply is_prefix_refl || apply is_prefix_nil
            | intros; reflexivity || discriminate]).
Qed.

Lemma issues_icon_step groupid values :
  issues (icon_step groupid values)
         (if has_file (icon values) then [ICON] else []).
Proof.
  intros w h. unfold icon_step.
  destruct (icon values) as [[|tf tl]|]; cbn [has_file].
  1, 3: exists []; rewrite app_nil_r; repeat split; apply is_prefix_nil.
  unfold_settings. cbn -[settings_path].
  repeat ask_backend; rewrite <- ?app_assoc; eexists;
    (split; [reflexivity|]); cbn -[settings_path];
    (split; [apply is_prefix_refl || apply is_prefix_nil
            | intros; reflexivity || discriminate]).
Qed.

Lemma issues_text_step groupid tag field :
  issues (text_step groupid tag field) (if truthy field then [tag] else []).
Proof.
  intros w h. unfold text_step.
  destruct field as [[|c s]|]; cbn [truthy String.eqb negb].
  1, 3: exists []; rewrite app_nil_r; repeat split; apply is_prefix_nil.
  unfold_settings. cbn -[settings_path].
  repeat ask_backend; rewrite <- ?app_assoc; eexists;
    (split; [reflexivity|]); cbn -[settings_path];
    (split; [apply is_prefix_refl || apply is_prefix_nil
            | intros; reflexivity || discriminate]).
Qed.

Lemma issues_form_check values :
  issues (A := unit)
    (empty <- form_is_empty values ;;
     if empty then toast "Error" (Some empty_form_text) ;; return_
     else toast "Success" (Some "Group data updated") ;; return_) [].
Proof.
  apply issues_nothing. intros w h.
  unfold form_is_empty, files_length, toast, emit, return_, throw, ret, bind.
  destruct (truthy (description values)), (truthy (name values)),
    (thumbnail values) as [[|? ?]|], (icon values) as [[|? ?]|],
    (truthy (jsondescription values)); cbn;
    (exists []; now rewrite app_nil_r) || (eexists; split; reflexivity).
Qed.

Lemma issues_settings_mutationFn groupid values :
  issues (settings_mutationFn groupid values) (present_fields values).
Proof.
  unfold settings_mutationFn, present_fields.
  apply issues_bind; [apply issues_thumbnail_step|intros _].
  apply issues_bind; [apply issues_icon_step|intros _].
  apply issues_bind; [apply issues_text_step|intros _].
  refine (issues_bind _ _ [] _ _ _).
  { apply issues_nothing. intros w h. exists [ConsoleLog "DESCRIPTION"].
    split; reflexivity. }
  intros _.
  apply issues_bind; [apply issues_text_step|intros _].
  rewrite <- (app_nil_r (if truthy (jsondescription values) then _ else _)).
  apply issues_bind; [apply issues_text_step|intros _].
  apply issues_form_check.
Qed.

Lemma completes_bind {A B} w (m : M A) (k : A -> M B) e1 e2 :
  completes_with w m e1 -> (forall a, completes_with w (k a) e2) ->
  completes_with w (bind m k) (e1 ++ e2).
Proof.
  intros Hm Hk h. destruct (Hm h) as [a [ev1 [E1 F1]]].
  destruct (Hk a (h ++ ev1)) as [b [ev2 [E2 F2]]].
  exists b, (ev1 ++ ev2). split.
  - rewrite (bind_normal _ _ _ _ _ _ E1), E2. now rewrite app_assoc.
  - now rewrite filter_app, F1, F2.
Qed.

Lemma completes_then_calls {A B} w (m : M A) (k : A -> M B) e1 e2 :
  completes_with w m e1 -> (forall a, calls_of w (k a) e2) ->
  calls_of w (bind m k) (e1 ++ e2).
Proof.
  intros Hm Hk h. destruct (Hm h) as [a [ev1 [E1 F1]]].
  destruct (Hk a (h ++ ev1)) as [ev2 [E2 F2]].
  exists (ev1 ++ ev2). split.
  - rewrite (bind_normal _ _ _ _ _ _ E1), E2. now rewrite app_assoc.
  - now rewrite filter_app, F1, F2.
Qed.

Section AllSucceed.
Variables (w : Backend) (ids : File -> string).
Hypothesis Hok : all_succeed w ids.

Let Hup := proj1 Hok.
Let Hid := proj1 (proj2 Hok).
Let Hset := proj2 (proj2 Hok).

Lemma stored_id_not_empty f : String.eqb (ids f) "" = false.
Proof. apply String.eqb_neq, Hid. Qed.

Lemma completes_thumbnail_step groupid values :
  completes_with w (thumbnail_step groupid values)
    (file_call groupid IMAGE ids (thumbnail values)).
Proof.
  intros h. unfold thumbnail_step, file_call.
  destruct (thumbnail values) as [[|tf tl]|].
  1, 3: exists tt, []; now rewrite app_nil_r.
  unfold_settings. rewrite Hup. cbn [uuid]. rewrite stored_id_not_empty.
  rewrite Hset. cbn -[settings_path]. rewrite <- app_assoc.
  eexists tt, _. split; reflexivity.
Qed.

Lemma completes_icon_step groupid values :
  completes_with w (icon_step groupid values)
    (file_call groupid ICON ids (icon values)).
Proof.
  intros h. unfold icon_step, file_call.
  destruct (icon values) as [[|tf tl]|].
  1, 3: exists tt, []; now rewrite app_nil_r.
  unfold_settings. rewrite Hup. cbn [uuid]. rewrite stored_id_not_empty.
  rewrite Hset. cbn -[settings_path]. rewrite <- app_assoc.
  eexists tt, _. split; reflexivity.
Qed.

Lemma completes_text_step groupid tag field :
  completes_with w (text_step groupid tag field)
    (text_call groupid tag field).
Proof.
  intros h. unfold text_step, text_call.
  destruct field as [[|c s]|]; cbn [String.eqb].
  1, 3: exists tt, []; now rewrite app_nil_r.
  unfold_settings. rewrite Hset. cbn -[settings_path].
  eexists tt, _. split; reflexivity.
Qed.

Lemma calls_of_settings_mutationFn groupid values :
  calls_of w (settings_mutationFn groupid values)
    (expected_calls groupid ids values).
Proof.
  unfold settings_mutationFn, expected_calls.
  apply completes_then_calls; [apply completes_thumbnail_step|intros _].
  apply completes_then_calls; [apply completes_icon_step|intros _].
  apply completes_then_calls; [apply completes_text_step|intros _].
  refine (completes_then_calls _ _ _ [] _ _ _).
  { intros h. exists tt, [ConsoleLog "DESCRIPTION"]. split; reflexivity. }
  intros _.
  apply completes_then_calls; [apply completes_text_step|intros _].
  rewrite <- (app_nil_r (text_call groupid JSONDESCRIPTION _)).
  apply completes_then_calls; [apply completes_text_step|intros _].
  intros h.
  destruct (issues_form_check values w h) as [evs [E [[r P] _]]].
  exists evs. split; [exact E|].
  destruct (call_tags evs) eqn:T; [|discriminate].
  clear - T. induction evs as [|e evs IH]; [reflexivity|].
  destruct e; cbn in *; auto; discriminate.
Qed.
End AllSucceed.

Lemma call_tags_filter (tr : list event) :
  call_tags (filter is_settings_call tr) = call_tags tr.
Proof.
  unfold call_tags.
  induction tr as [|e tr IH]; [reflexivity|].
  destruct e; cbn; auto. now rewrite IH.
Qed.

Lemma call_tags_expected groupid ids values :
  call_tags (expected_calls groupid ids values) = present_fields values.
Proof.
  unfold expected_calls, present_fields, file_call, text_call.
  rewrite !call_tags_app.
  destruct (thumbnail values) as [[|? ?]|], (icon values) as [[|? ?]|],
    (name values) as [[|? ?]|], (description values) as [[|? ?]|],
    (jsondescription values) as [[|? ?]|]; reflexivity.
Qed.

Lemma step_without_file groupid values w h :
  (has_file (thumbnail values) = false ->
   thumbnail_step groupid values w h = (Normal tt, h))
  /\ (has_file (icon values) = false ->
      icon_step groupid values w h = (Normal tt, h)).
Proof.
  unfold thumbnail_step, icon_step.
  destruct (thumbnail values) as [[|? ?]|], (icon values) as [[|? ?]|];
    cbn; split; intros; reflexivity || discriminate.
Qed.

(** With only the name set, whatever the backend answers, the one call
    that leaves the client is the [NAME] update. *)
Lemma only_name_calls w groupid values n :
  has_file (thumbnail values) = false -> has_file (icon values) = false ->
  name values = Some n -> n <> "" ->
  truthy (description values) = false ->
  truthy (jsondescription values) = false ->
  filter is_network_call (snd (run (settings_mutationFn groupid values) w))
  = [UpDateGroupSettings groupid NAME n (settings_path groupid)].
Proof.
  intros Ht Hi Hn Hne Hd Hj.
  unfold run, settings_mutationFn.
  rewrite (bind_normal _ _ _ _ _ _ (proj1 (step_without_file _ _ _ _) Ht)).
  rewrite (bind_normal _ _ _ _ _ _ (proj2 (step_without_file _ _ _ _) Hi)).
  rewrite (text_step_falsy _ DESCRIPTION _ Hd),
    (text_step_falsy _ JSONDESCRIPTION _ Hj).
  unfold form_is_empty. rewrite Hd, Hn.
  destruct n as [|c s]; [contradiction|].
  unfold_settings. cbn -[settings_path].
  repeat ask_backend; reflexivity.
Qed.

(** *** A submission stops at the first call that fails *)

Lemma all_calls_served_app w (l l' : list event) :
  forall h,
    all_calls_served w h (l ++ l')
    = all_calls_served w h l && all_calls_served w (h ++ l) l'.
Proof.
  induction l as [|e l IH]; intros h; cbn [all_calls_served app].
  - now rewrite app_nil_r.
  - rewrite IH, <- app_assoc, andb_assoc. reflexivity.
Qed.

Lemma stops_after_served w (l l' : list event) :
  forall h,
    all_calls_served w h l = true ->
    stops_at_failed_call w h (l ++ l') = stops_at_failed_call w (h ++ l) l'.
Proof.
  induction l as [|e l IH]; intros h; cbn [all_calls_served app
    stops_at_failed_call].
  - now rewrite app_nil_r.
  - intros H. apply andb_prop in H as [Hc Hs].
    apply negb_true_iff in Hc. rewrite Hc, (IH _ Hs), <- app_assoc.
    reflexivity.
Qed.

Lemma submission_stops_bind {A B} (m : M A) (k : A -> M B) e1 e2 :
  step_stops m e1 -> (forall a, submission_stops (k a) e2) ->
  submission_stops (bind m k) (e1 ++ e2).
Proof.
  intros Hm Hk w h. destruct (Hm w h) as [ev1 [E1 [S1 [C1 N1]]]].
  unfold bind. destruct (m w h) as [[a| |e] h'] eqn:Em; cbn [fst snd] in *;
    subst h'.
  - destruct (N1 a eq_refl) as [V1 T1].
    destruct (Hk a w (h ++ ev1)) as [ev2 [E2 [S2 C2]]].
    exists (ev1 ++ ev2). split; [now rewrite E2, app_assoc|]. split.
    + now rewrite (stops_after_served w ev1 ev2 h V1).
    + rewrite all_calls_served_app, V1, call_tags_app, T1. cbn [andb].
      intros V2. now rewrite (C2 V2).
  - exists ev1. split; [reflexivity|]. split; [exact S1|].
    intros V. destruct (C1 V) as [a Ha]. discriminate Ha.
  - exists ev1. split; [reflexivity|]. split; [exact S1|].
    intros V. destruct (C1 V) as [a Ha]. discriminate Ha.
Qed.

(** Replays a computed trace against what the backend answered. *)
Ltac replay :=
  cbn [stops_at_failed_call all_calls_served call_failed forallb
       is_network_call negb andb app uuid status String.eqb fst snd];
  repeat (match goal with
          | H : upload_answer _ _ _ = _ |- _ => rewrite H
          | H : settings_answer _ _ _ _ _ _ = _ |- _ => rewrite H
          | H : Z.eqb _ 200 = _ |- _ => rewrite H
          end;
          cbn [stops_at_failed_call all_calls_served call_failed forallb
               is_network_call negb andb app uuid status String.eqb
               fst snd]).

Ltac stop_case :=
  rewrite <- ?app_assoc; eexists; (split; [reflexivity|]);
  replay;
  (split; [reflexivity|split]);
  [let Hs := fresh "Hs" in
   intros Hs; first [discriminate Hs | eexists; reflexivity]
  |let Ha := fresh "Ha" in
   intros ? Ha; first [discriminate Ha | split; reflexivity]].

Lemma stops_thumbnail_step groupid values :
  step_stops (thumbnail_step groupid values)
    (if has_file (thumbnail values) then [IMAGE] else []).
Proof.
  intros w h. unfold thumbnail_step.
  destruct (thumbnail values) as [[|tf tl]|]; cbn [has_file].
  1, 3: exists []; rewrite app_nil_r; repeat split; now exists tt.
  unfold_settings. cbn -[settings_path].
  repeat ask_backend; stop_case.
Qed.

Lemma stops_icon_step groupid values :
  step_stops (icon_step groupid values)
    (if has_file (icon values) then [ICON] else []).
Proof.
  intros w h. unfold icon_step.
  destruct (icon values) as [[|tf tl]|]; cbn [has_file].
  1, 3: exists []; rewrite app_nil_r; repeat split; now exists tt.
  unfold_settings. cbn -[settings_path].
  repeat ask_backend; stop_case.
Qed.

Lemma stops_text_step groupid tag field :
  step_stops (text_step groupid tag field)
    (if truthy field then [tag] else []).
Proof.
  intros w h. unfold text_step.
  destruct field as [[|c s]|]; cbn [truthy String.eqb negb].
  1, 3: exists []; rewrite app_nil_r; repeat split; now exists tt.
  unfold_settings. cbn -[settings_path].
  repeat ask_backend; stop_case.
Qed.

Lemma stops_settings_mutationFn groupid values :
  submission_stops (settings_mutationFn groupid values)
    (present_fields values).
Proof.
  unfold settings_mutationFn, present_fields.
  apply submission_stops_bind; [apply stops_thumbnail_step|intros _].
  apply submission_stops_bind; [apply stops_icon_step|intros _].
  apply submission_stops_bind; [apply stops_text_step|intros _].
  refine (submission_stops_bind _ _ [] _ _ _).
  { intros w h. exists [ConsoleLog "DESCRIPTION"].
    repeat split. now exists tt. }
  intros _.
  apply submission_stops_bind; [apply stops_text_step|intros _].
  rewrite <- (app_nil_r (if truthy (jsondescription values) then _ else _)).
  apply submission_stops_bind; [apply stops_text_step|intros _].
  intros w h.
  unfold form_is_empty, files_length, toast, emit, return_, throw, ret, bind.
  destruct (truthy (description values)), (truthy (name values)),
    (thumbnail values) as [[|? ?]|], (icon values) as [[|? ?]|],
    (truthy (jsondescription values)); cbn;
    first [solve [exists []; rewrite app_nil_r; repeat split]
          |eexists; (split; [reflexivity|]); split; reflexivity].
Qed.

(** The scenario of the specification: [{name: "Alpha"}], answered 200. *)
Example submit_alpha :
  run (settings_mutationFn "g1" only_name) backend_ok
  = (Returned,
     [UpDateGroupSettings "g1" NAME "Alpha" "/group/g1/settings";
      ConsoleLog "DESCRIPTION";
      Toast "Success" (Some "Group data updated")]).
Proof. reflexivity. Qed.

(** C1, the claim as worded fails: name and description are both present
    and non-empty, the name update answers 500, and the mutation returns
    at once: one call ([NAME]) is issued, none for the description. *)
Lemma refused_name_skips_description :
  present_fields name_and_description = [NAME; DESCRIPTION]
  /\ run (settings_mutationFn "g1" name_and_description) backend_refusing
     = (Returned,
        [UpDateGroupSettings "g1" NAME "Alpha" "/group/g1/settings";
         Toast "Error" (Some "Oops! looks like your form is empty")])
  /\ call_tags (snd (run (settings_mutationFn "g1" name_and_description)
                       backend_refusing))
     <> present_fields name_and_description.
Proof. split; [|split]; [reflexivity|reflexivity|discriminate]. Qed.

(** C1, as the code has it.  The update calls of a submission carry the
    tags of its present and non-empty fields in the fixed order thumbnail,
    icon, name, description, jsondescription, at most one call per field,
    and stop at the first step that fails: their tags are a prefix of the
    list of present fields, nothing leaves the client after the first
    call that was not served (a failed upload, an update that rejects or
    answers a status other than 200), and when every call was served
    every present field has received its call.  When every upload and
    every update succeeds, there is exactly one call per such field, with
    the stored file id or the field's text as value.  With only the name
    set, the single call that leaves the client is the [NAME] update,
    whatever it answers. *)
Theorem settings_calls_follow_present_fields :
  forall (w : Backend) (groupid : string) (values : GroupSettingsValues),
    let tr := snd (run (settings_mutationFn groupid values) w) in
    is_prefix (call_tags tr) (present_fields values)
    /\ (forall ids,
          all_succeed w ids ->
          filter is_settings_call tr = expected_calls groupid ids values
          /\ call_tags tr = present_fields values)
    /\ (forall n,
          has_file (thumbnail values) = false ->
          has_file (icon values) = false ->
          name values = Some n -> n <> "" ->
          truthy (description values) = false ->
          truthy (jsondescription values) = false ->
          filter is_network_call tr
          = [UpDateGroupSettings groupid NAME n (settings_path groupid)])
    /\ stops_at_failed_call w [] tr = true
    /\ (all_calls_served w [] tr = true ->
        call_tags tr = present_fields values).
Proof.
  intros w groupid values tr. subst tr. split; [|split; [|split]].
  - destruct (issues_settings_mutationFn groupid values w [])
      as [evs [E [P _]]].
    unfold run. now rewrite E.
  - intros ids Hok.
    destruct (calls_of_settings_mutationFn w ids Hok groupid values [])
      as [evs [E F]].
    unfold run. rewrite E. cbn [app]. split; [exact F|].
    now rewrite <- call_tags_filter, F, call_tags_expected.
  - intros n. apply only_name_calls.
  - destruct (stops_settings_mutationFn groupid values w [])
      as [evs [E [S C]]].
    unfold run. rewrite E. cbn [app]. split; [exact S|exact C].
Qed.

Lemma settings_calls_follow_present_fields_witness :
  all_succeed backend_ok stored_id
  /\ filter is_settings_call
       (snd (run (settings_mutationFn "g1" thumbnail_and_name) backend_ok))
     = [UpDateGroupSettings "g1" IMAGE "uuid:cover.png" "/group/g1/settings";
        UpDateGroupSettings "g1" NAME "Alpha" "/group/g1/settings"]
  /\ filter is_network_call
       (snd (run (settings_mutationFn "g1" only_name) backend_refusing))
     = [UpDateGroupSettings "g1" NAME "Alpha" "/group/g1/settings"].
Proof.
  assert (Hok : all_succeed backend_ok stored_id).
  { split; [reflexivity|]. split; [discriminate|reflexivity]. }
  split; [exact Hok|]. split.
  - exact (proj1 (proj1 (proj2 (settings_calls_follow_present_fields
                                  backend_ok "g1" thumbnail_and_name))
                        stored_id Hok)).
  - refine (proj1 (proj2 (proj2 (settings_calls_follow_present_fields
                                   backend_refusing "g1" only_name)))
                  "Alpha" eq_refl eq_refl eq_refl _ eq_refl eq_refl).
    discriminate.
Defined.

(** ** useMediaGallery: the batch of images *)

Lemma no_call_after_error_app (l l' : list event) :
  filter is_error_toast l = [] ->
  no_call_after_error (l ++ l') = no_call_after_error l'.
Proof.
  induction l as [|e l IH]; [reflexivity|]. cbn.
  destruct (is_error_toast e); [discriminate|auto].
Qed.

Lemma image_loop_shape groupid w files :
  forall h, exists c evs,
    image_loop groupid files w h = (c, h ++ evs)
    /\ c <> Returned
    /\ is_prefix (uploads evs) files
    /\ one_at_a_time (filter is_network_call evs) = true
    /\ ((filter is_error_toast evs = []
         /\ (c = Normal tt -> uploads evs = files))
        \/ (exists evs' t,
              evs = evs' ++ [t] /\ is_error_toast t = true
              /\ filter is_error_toast evs' = []
              /\ filter is_network_call [t] = []
              /\ c = Normal tt)).
Proof.
  induction files as [|f files IH]; intros h.
  - exists (Normal tt), []. cbn. rewrite app_nil_r.
    repeat split; try discriminate; [apply is_prefix_refl|]. left. auto.
  - cbn [image_loop]. unfold bind at 1. unfold upload_uploadFile, await at 1.
    destruct (upload_answer w h f) as [[up|]|e].
    + unfold bind at 1. unfold onUpdateGroupGallery, await at 1.
      destruct (gallery_answer w (h ++ [UploadFile f]) groupid (uuid up))
        as [[r|]|e].
      * destruct (Z.eqb (mstatus r) 200).
        -- unfold bind at 1. unfold emit at 1.
           destruct (IH (((h ++ [UploadFile f])
                          ++ [UpdateGroupGallery groupid (uuid up)])
                         ++ [ConsoleLog "increment"]))
             as [c [evs [E [Hc [[r' P] [S D]]]]]].
           exists c, ([UploadFile f; UpdateGroupGallery groupid (uuid up);
                       ConsoleLog "increment"] ++ evs).
           split; [rewrite E; now rewrite <- !app_assoc|].
           split; [exact Hc|].
           split; [exists r'; rewrite uploads_app; cbn; now f_equal|].
           split; [exact S|].
           destruct D as [[T A]|[evs' [t [-> [Ht [T [Nt ->]]]]]]].
           ++ left. split; [exact T|]. intros Hn.
              rewrite uploads_app. cbn. f_equal. now apply A.
           ++ right.
              exists ([UploadFile f; UpdateGroupGallery groupid (uuid up);
                       ConsoleLog "increment"] ++ evs'), t.
              repeat split; auto.
        -- exists (Normal tt),
             ([UploadFile f; UpdateGroupGallery groupid (uuid up)]
              ++ [Toast "Error" (message r)]).
           unfold toast, emit. rewrite <- !app_assoc.
           repeat split; try discriminate; [now exists files|].
           right. eexists _, _. repeat split.
      * exists (Normal tt),
          ([UploadFile f; UpdateGroupGallery groupid (uuid up)]
           ++ [Toast "Error" None]).
        unfold toast, emit. rewrite <- !app_assoc.
        repeat split; try discriminate; [now exists files|].
        right. eexists _, _. repeat split.
      * exists (Thrown e),
          [UploadFile f; UpdateGroupGallery groupid (uuid up)].
        rewrite <- !app_assoc.
        repeat split; try discriminate; [now exists files|].
        left. split; [reflexivity|discriminate].
    + exists (Normal tt),
        ([UploadFile f]
         ++ [Toast "Error" (Some "Looks like something went wrong!")]).
      unfold toast, emit. rewrite <- !app_assoc.
      repeat split; try discriminate; [now exists files|].
      right. eexists _, _. repeat split.
    + exists (Thrown e), [UploadFile f].
      repeat split; try discriminate; [now exists files|].
      left. split; [reflexivity|discriminate].
Qed.

Lemma gallery_mutationFn_batch groupid values :
  gallery_mutationFn groupid values
  = (video_step groupid values ;;
     image_loop groupid (batch values) ;;
     toast "Success" (Some "Group gallery updated") ;; return_).
Proof.
  unfold gallery_mutationFn, batch.
  now destruct (image values) as [[|f files]|].
Qed.

Lemma video_step_shape groupid values w h :
  exists c evs,
    video_step groupid values w h = (c, h ++ evs)
    /\ uploads evs = []
    /\ filter is_network_call evs = video_call groupid values
    /\ List.length (filter is_error_toast evs) <= 1
    /\ no_call_after_error evs = true
    /\ (c = Normal tt -> filter is_error_toast evs = [])
    /\ (c = Returned -> filter is_error_toast evs <> []).
Proof.
  unfold video_step, video_call.
  destruct (videourl values) as [[|ch url]|]; cbn [String.eqb].
  1, 3: exists (Normal tt), []; rewrite app_nil_r; cbn;
    repeat split; try lia; discriminate.
  unfold bind at 1. unfold onUpdateGroupGallery, await.
  destruct (gallery_answer w h groupid (String ch url)) as [[r|]|e].
  - destruct (Z.eqb (mstatus r) 200).
    + eexists (Normal tt), _. split; [reflexivity|]. cbn.
      repeat split; try lia; discriminate.
    + unfold toast, emit, return_, bind. rewrite <- app_assoc.
      eexists Returned, _. split; [reflexivity|]. cbn.
      repeat split; try lia; discriminate.
  - eexists (Normal tt), _. split; [reflexivity|]. cbn.
    repeat split; try lia; discriminate.
  - eexists (Thrown e), _. split; [reflexivity|]. cbn.
    repeat split; try lia; discriminate.
Qed.

Lemma persisted_after_app w (l l' : list event) :
  forall h,
    persisted_after w h (l ++ l')
    = persisted_after w h l ++ persisted_after w (h ++ l) l'.
Proof.
  induction l as [|e l IH]; intros h; cbn [persisted_after app].
  - now rewrite app_nil_r.
  - rewrite IH, <- !app_assoc. reflexivity.
Qed.

Section Batch.
Variables (w : Backend) (groupid : string) (ups : File -> string).
Variables (done : list File) (bad : File) (rest : list File).
Hypothesis Hupload : forall h f, In f done ->
  upload_answer w h f = Fulfilled (Some {| uuid := ups f |}).
Hypothesis Hcommit : forall h f, In f done ->
  exists m, gallery_answer w h groupid (ups f)
            = Fulfilled (Some {| mstatus := 200; message := m |}).
Hypothesis Hbad : fails_on w groupid bad.

Lemma persisted_committed :
  forall dn h, incl dn done ->
    persisted_after w h (flat_map (committed_events groupid ups) dn)
    = map ups dn.
Proof.
  induction dn as [|f dn IH]; intros h Hin; [reflexivity|].
  cbn [flat_map committed_events app persisted_after map].
  destruct (Hcommit (h ++ [UploadFile f]) f (Hin f (or_introl eq_refl)))
    as [m ->].
  cbn. f_equal. apply IH. intros x Hx. apply Hin. now right.
Qed.

Lemma image_loop_until_failure :
  forall dn h, incl dn done ->
    exists tail,
      image_loop groupid (dn ++ bad :: rest) w h
      = (Normal tt,
         h ++ flat_map (committed_events groupid ups) dn
           ++ UploadFile bad :: tail)
      /\ uploads tail = []
      /\ List.length (filter is_error_toast tail) = 1
      /\ (forall h', persisted_after w (h' ++ [UploadFile bad]) tail = []).
Proof.
  induction dn as [|f dn IH]; intros h Hin.
  - cbn [app flat_map image_loop]. unfold bind at 1.
    unfold upload_uploadFile, await at 1.
    destruct Hbad as [Hnone|[up [answer [Hup [Hans Hst]]]]].
    + rewrite Hnone. unfold toast, emit. rewrite <- app_assoc.
      eexists. split; [reflexivity|]. repeat split.
    + rewrite Hup. unfold bind at 1. unfold onUpdateGroupGallery, await at 1.
      rewrite Hans. destruct answer as [r|].
      * destruct (Z.eqb (mstatus r) 200) eqn:E;
          [apply Z.eqb_eq in E; contradiction|].
        unfold toast, emit. rewrite <- !app_assoc.
        eexists. split; [reflexivity|]. repeat split.
        intros h'. cbn. rewrite Hans, E. reflexivity.
      * unfold toast, emit. rewrite <- !app_assoc.
        eexists. split; [reflexivity|]. repeat split.
        intros h'. cbn. rewrite Hans. reflexivity.
  - cbn [app flat_map image_loop]. unfold bind at 1.
    unfold upload_uploadFile, await at 1.
    rewrite (Hupload h f (Hin f (or_introl eq_refl))).
    unfold bind at 1. unfold onUpdateGroupGallery, await at 1. cbn [uuid].
    destruct (Hcommit (h ++ [UploadFile f]) f (Hin f (or_introl eq_refl)))
      as [m ->].
    cbn [mstatus Z.eqb Pos.eqb]. unfold bind at 1. unfold emit at 1.
    destruct (IH (((h ++ [UploadFile f])
                   ++ [UpdateGroupGallery groupid (ups f)])
                  ++ [ConsoleLog "increment"]))
      as [tail [E P]].
    { intros x Hx. apply Hin. now right. }
    exists tail. split; [|exact P].
    rewrite E. unfold committed_events. now rewrite <- !app_assoc.
Qed.
End Batch.

Lemma committed_events_read groupid ups (dn : list File) :
  uploads (flat_map (committed_events groupid ups) dn) = dn
  /\ filter is_error_toast (flat_map (committed_events groupid ups) dn) = [].
Proof.
  induction dn as [|f dn [IHu IHt]]; [split; reflexivity|].
  cbn [flat_map committed_events app]. split.
  - cbn. f_equal. exact IHu.
  - cbn. exact IHt.
Qed.

(** C4: the images of a submission are uploaded and committed one file at
    a time in submission order: the uploads are a prefix of the batch, and
    after the commit of the video URL (if any) uploads and commits
    alternate; at most one failure toast is shown and nothing leaves the
    client after it; without a failure the whole batch is uploaded.  When
    the files before [bad] succeed and [bad] fails (its upload returns
    nothing or its commit is not answered with 200), the persisted entries
    are those of the files before [bad], in order, after what the video
    step persisted; [bad] is the last file uploaded, nothing after it is
    touched, and exactly one failure toast is reported. *)
Theorem gallery_batch_halts_at_first_failure :
  forall (w : Backend) (groupid : string) (values : UpdateGalleryValues),
    let c := fst (run (gallery_mutationFn groupid values) w) in
    let tr := snd (run (gallery_mutationFn groupid values) w) in
    is_prefix (uploads tr) (batch values)
    /\ (exists calls,
          filter is_network_call tr = video_call groupid values ++ calls
          /\ one_at_a_time calls = true)
    /\ List.length (filter is_error_toast tr) <= 1
    /\ no_call_after_error tr = true
    /\ (c = Returned -> filter is_error_toast tr = [] ->
        uploads tr = batch values)
    /\ (forall (h0 : list event) (ups : File -> string) (done : list File)
               (bad : File) (rest : list File),
          video_step groupid values w [] = (Normal tt, h0) ->
          batch values = done ++ bad :: rest ->
          (forall h f, In f done ->
             upload_answer w h f = Fulfilled (Some {| uuid := ups f |})) ->
          (forall h f, In f done ->
             exists m, gallery_answer w h groupid (ups f)
                       = Fulfilled (Some {| mstatus := 200; message := m |})) ->
          fails_on w groupid bad ->
          c = Returned
          /\ uploads tr = done ++ [bad]
          /\ persisted_gallery w tr = persisted_gallery w h0 ++ map ups done
          /\ List.length (filter is_error_toast tr) = 1).
Proof.
  intros w groupid values c tr. subst c tr. unfold run.
  rewrite gallery_mutationFn_batch.
  destruct (video_step_shape groupid values w [])
    as [c1 [ev1 [E1 [U1 [N1 [T1 [A1 [X1 R1]]]]]]]].
  cbn [app] in E1.
  destruct (image_loop_shape groupid w (batch values) ev1)
    as [c2 [ev2 [E2 [Hc [P [S D]]]]]].
  set (success := Toast "Success" (Some "Group gallery updated")).
  assert (Hrun :
    (video_step groupid values ;;
     image_loop groupid (batch values) ;;
     toast "Success" (Some "Group gallery updated") ;; return_) w []
    = match c1, c2 return completion unit * list event with
      | Normal _, Normal _ => (Returned, ev1 ++ ev2 ++ [success])
      | Normal _, Returned => (Returned, ev1 ++ ev2)
      | Normal _, Thrown e => (Thrown e, ev1 ++ ev2)
      | Returned, _ => (Returned, ev1)
      | Thrown e, _ => (Thrown e, ev1)
      end).
  { unfold bind at 1. rewrite E1. destruct c1 as [[]| |e1]; try reflexivity.
    unfold bind at 1. rewrite E2. destruct c2 as [[]| |e2]; try reflexivity.
    unfold toast, emit, return_, bind. now rewrite <- app_assoc. }
  rewrite Hrun. clear Hrun.
  split; [|split; [|split; [|split; [|split]]]].
  - destruct c1 as [[]| |e1]; [destruct c2 as [[]| |e2]| |]; cbn [fst snd];
      rewrite ?uploads_app, ?U1; cbn; rewrite ?app_nil_r;
      try exact P; apply is_prefix_nil.
  - destruct c1 as [[]| |e1]; [destruct c2 as [[]| |e2]| |]; cbn [fst snd];
      rewrite ?filter_app, ?N1; cbn; rewrite ?app_nil_r.
    1-3: now exists (filter is_network_call ev2).
    all: exists []; now rewrite app_nil_r.
  - destruct c1 as [[]| |e1]; [destruct c2 as [[]| |e2]| |]; cbn [fst snd];
      rewrite ?filter_app, ?length_app, ?(X1 eq_refl); cbn; try lia;
      (destruct D as [[T _]|[evs' [t [-> [Ht [T _]]]]]];
       [rewrite T; cbn; lia
       |rewrite filter_app, T; cbn; rewrite Ht; cbn; lia]).
  - destruct c1 as [[]| |e1]; [destruct c2 as [[]| |e2]| |]; cbn [fst snd];
      try exact A1; try contradiction;
      rewrite no_call_after_error_app by (apply X1; reflexivity).
    + destruct D as [[T _]|[evs' [t [-> [Ht [T [Nt _]]]]]]].
      * now rewrite no_call_after_error_app.
      * rewrite <- app_assoc, no_call_after_error_app by exact T.
        cbn. now rewrite Ht.
    + destruct D as [[T _]|[evs' [t [-> [Ht [T [Nt Hn]]]]]]]; [|discriminate].
      rewrite <- (app_nil_r ev2). now rewrite no_call_after_error_app.
  - destruct c1 as [[]| |e1]; [destruct c2 as [[]| |e2]| |]; cbn [fst snd];
      try contradiction; try discriminate.
    + intros _ T. rewrite !uploads_app, U1. cbn. rewrite app_nil_r.
      destruct D as [[_ A]|[evs' [t [-> [Ht [T' _]]]]]]; auto.
      rewrite !filter_app in T. cbn in T. rewrite Ht in T.
      destruct (filter is_error_toast ev1), (filter is_error_toast evs');
        discriminate.
    + intros _ T. exfalso. exact (R1 eq_refl T).
  - intros h0 ups done bad rest Hv Hfiles Hup Hcm Hbad.
    rewrite Hv in E1. injection E1 as <- <-.
    rewrite Hfiles in E2.
    destruct (image_loop_until_failure w groupid ups done bad rest
                Hup Hcm Hbad done h0 (incl_refl done))
      as [tail [E' [Ut [Tt Pt]]]].
    rewrite E' in E2. injection E2 as <- E2.
    apply app_inv_head in E2. subst ev2. cbn [fst snd].
    destruct (committed_events_read groupid ups done) as [Hu Ht].
    change (UploadFile bad :: tail) with ([UploadFile bad] ++ tail).
    repeat split.
    + rewrite !uploads_app, U1, Hu, Ut. cbn. now rewrite app_nil_r.
    + unfold persisted_gallery.
      rewrite persisted_after_app. f_equal. cbn [app].
      rewrite <- !app_assoc, persisted_after_app.
      rewrite (persisted_committed w groupid ups done Hcm done h0
                 (incl_refl _)).
      cbn [app persisted_after].
      rewrite persisted_after_app, Pt. cbn. now rewrite app_nil_r.
    + rewrite !filter_app, (X1 eq_refl), Ht, !length_app, Tt. reflexivity.
Qed.

Lemma gallery_batch_halts_at_first_failure_witness :
  video_step "g1" batch_abc (backend_rejecting "b.png") [] = (Normal tt, [])
  /\ batch batch_abc = ["a.png"] ++ "b.png" :: ["c.png"]
  /\ fails_on (backend_rejecting "b.png") "g1" "b.png"
  /\ persisted_gallery (backend_rejecting "b.png")
       (snd (run (gallery_mutationFn "g1" batch_abc)
               (backend_rejecting "b.png")))
     = ["uuid:a.png"].
Proof.
  assert (Hbad : fails_on (backend_rejecting "b.png") "g1" "b.png").
  { left. reflexivity. }
  split; [reflexivity|]. split; [reflexivity|]. split; [exact Hbad|].
  refine (proj1 (proj2 (proj2
    (proj2 (proj2 (proj2 (proj2 (proj2
      (gallery_batch_halts_at_first_failure (backend_rejecting "b.png") "g1"
         batch_abc)))))
       [] stored_id ["a.png"] "b.png" ["c.png"] eq_refl eq_refl _ _ Hbad)))).
  - intros h f [<-|[]]. reflexivity.
  - intros h f _. exists None. reflexivity.
Defined.

(** The batch [A, B, C] of the specification, the upload of [B] failing. *)
Example batch_abc_trace :
  run (gallery_mutationFn "g1" batch_abc) (backend_rejecting "b.png")
  = (Returned,
     [UploadFile "a.png"; UpdateGroupGallery "g1" "uuid:a.png";
      ConsoleLog "increment"; UploadFile "b.png";
      Toast "Error" (Some "Looks like something went wrong!");
      Toast "Success" (Some "Group gallery updated")]).
Proof. reflexivity. Qed.

(** ** useSearch: the debounce *)

Lemma last_cons {A} (a d : A) (l : list A) : last (a :: l) d = last l a.
Proof.
  revert a d. induction l as [|b l IH]; intros a d; [reflexivity|].
  change (last (a :: b :: l) d) with (last (b :: l) d).
  now rewrite !IH.
Qed.

(** While the changes of a burst keep coming, the timer is restarted each
    time and never fires: nothing happens downstream. *)
Lemma typing_restarts_timer search :
  forall changes t value st,
    delayInputTimeoutId st = Some ((t + 1000)%Z, value) ->
    query st = value ->
    burst t value changes ->
    type_changes search changes st
    = {| query := snd (last changes (t, value));
         debounce := debounce st;
         delayInputTimeoutId :=
           Some ((fst (last changes (t, value)) + 1000)%Z,
                 snd (last changes (t, value)));
         happened := happened st |}.
Proof.
  induction changes as [|[t' value'] changes IH]; intros t value st Ht Hq Hb.
  - cbn. rewrite <- Ht, <- Hq. now destruct st.
  - destruct Hb as [Hlt [Hne Hb]].
    cbn [type_changes]. rewrite last_cons.
    assert (E : onSearchQuery search t' value' st
                = {| query := value'; debounce := debounce st;
                     delayInputTimeoutId := Some ((t' + 1000)%Z, value');
                     happened := happened st |}).
    { unfold onSearchQuery, advance. rewrite Ht.
      destruct (Z.leb_spec (t + 1000) t') as [Hle|_]; [lia|].
      rewrite Hq. apply String.eqb_neq in Hne. now rewrite Hne. }
    rewrite E. rewrite (IH t' value' _); [reflexivity..|exact Hb].
Qed.

(** The first change after a calm state starts the timer anew. *)
Lemma first_change_starts_timer search t value st :
  calm st -> value <> query st ->
  onSearchQuery search t value st
  = {| query := value; debounce := debounce st;
       delayInputTimeoutId := Some ((t + 1000)%Z, value);
       happened := happened st |}.
Proof.
  intros [Hd Hp] Hne. apply String.eqb_neq in Hne.
  unfold onSearchQuery, advance, fire.
  destruct (delayInputTimeoutId st) as [[deadline q]|] eqn:Et.
  - destruct (Z.leb deadline t).
    + rewrite Hp, Hd, String.eqb_refl. cbn. now rewrite Hne.
    + now rewrite Hne.
  - now rewrite Hne.
Qed.

(** The states in which a burst may start: [mount], and every state
    reached from it once the pending timer has run out. *)
Lemma mount_tracks_query search : tracks_query (mount search).
Proof. reflexivity. Qed.

Lemma onSearchQuery_tracks_query search t value st :
  tracks_query st -> tracks_query (onSearchQuery search t value st).
Proof.
  unfold tracks_query, onSearchQuery, advance, fire.
  destruct (delayInputTimeoutId st) as [[deadline q]|] eqn:Et.
  - intros Hq. destruct (Z.leb deadline t).
    + destruct (String.eqb q (debounce st)) eqn:Ed; cbn.
      * apply String.eqb_eq in Ed.
        destruct (String.eqb value (query st)); cbn; congruence.
      * destruct (String.eqb value (query st)); cbn; congruence.
    + destruct (String.eqb value (query st)); cbn; [|reflexivity].
      now rewrite Et.
  - intros Hd. destruct (String.eqb value (query st)); cbn; [|reflexivity].
    now rewrite Et.
Qed.

Lemma type_changes_tracks_query search changes :
  forall st, tracks_query st ->
    tracks_query (type_changes search changes st).
Proof.
  induction changes as [|[t value] changes IH]; intros st Hst; [exact Hst|].
  cbn [type_changes]. apply IH. now apply onSearchQuery_tracks_query.
Qed.

Lemma settle_is_calm search st :
  tracks_query st -> calm (settle search st).
Proof.
  unfold tracks_query, calm, settle, fire.
  destruct (delayInputTimeoutId st) as [[deadline q]|] eqn:Et.
  - intros Hq. destruct (String.eqb q (debounce st)) eqn:Ed; cbn.
    + apply String.eqb_eq in Ed. split; [congruence|exact I].
    + split; [exact Hq|exact I].
  - intros Hd. rewrite Et. split; [exact Hd|exact I].
Qed.

Lemma mount_is_calm search : calm (mount search).
Proof. split; reflexivity. Qed.

(** C5, as the code has it.  After a calm state, a burst of changes (each
    altering the text, each less than 1000 ms after the one before) fires
    nothing while it lasts; 1000 ms after its last change the debounced
    value becomes the last value, and if that value is new the second
    effect runs once: one query carrying the last value when it is not
    empty, and when it is empty one [onClearSearch] and no query or
    network call.  When the last value equals the debounced value already
    in force, nothing fires. *)
Theorem debounce_fires_once_after_burst :
  forall (search : SearchKind) (st : SearchHook) (t1 : Z) (v1 : string)
         (changes : list (Z * string)),
    calm st -> v1 <> query st -> burst t1 v1 changes ->
    let tn := fst (last changes (t1, v1)) in
    let vn := snd (last changes (t1, v1)) in
    let typed := type_changes search ((t1, v1) :: changes) st in
    let st' := settle search typed in
    let fired :=
      if String.eqb vn (debounce st) then []
      else stamp (tn + 1000) (debounce_effect search vn) in
    happened typed = happened st
    /\ debounce st' = vn
    /\ happened st' = happened st ++ fired
    /\ fetches fired
       = (if String.eqb vn (debounce st) || String.eqb vn "" then []
          else [((tn + 1000)%Z, vn)])
    /\ (vn = "" -> debounce st <> "" ->
        fired = [((tn + 1000)%Z, Dispatch onClearSearch)]
        /\ network_events fired = []).
Proof.
  intros search st t1 v1 changes Hcalm Hne Hb tn vn typed st' fired.
  assert (Et : typed
               = {| query := vn; debounce := debounce st;
                    delayInputTimeoutId := Some ((tn + 1000)%Z, vn);
                    happened := happened st |}).
  { subst typed tn vn. cbn [type_changes].
    rewrite (first_change_starts_timer search t1 v1 st Hcalm Hne).
    rewrite (typing_restarts_timer search changes t1 v1 _);
      [reflexivity..|exact Hb]. }
  subst st' fired. rewrite Et. clearbody tn vn. clear Et typed.
  unfold settle, fire.
  cbn [delayInputTimeoutId debounce happened query].
  destruct (String.eqb vn (debounce st)) eqn:Ed.
  - apply String.eqb_eq in Ed. cbn [debounce happened orb fetches flat_map].
    rewrite app_nil_r.
    split; [reflexivity|]. split; [now symmetry|].
    split; [reflexivity|]. split; [reflexivity|].
    intros E Hd. exfalso. apply Hd. now rewrite <- Ed.
  - cbn [debounce happened orb].
    split; [reflexivity|]. split; [reflexivity|]. split; [reflexivity|].
    split.
    + unfold debounce_effect, refetch, stamp.
      destruct (String.eqb vn ""); cbn; [reflexivity|].
      destruct search; reflexivity.
    + intros E _. subst vn. split; reflexivity.
Qed.

Lemma debounce_fires_once_after_burst_witness :
  calm (mount GROUPS)
  /\ "a" <> query (mount GROUPS)
  /\ burst 0 "a" [(300%Z, "ab"); (900%Z, "abc")]
  /\ fetches (happened (settle GROUPS
       (type_changes GROUPS [(0%Z, "a"); (300%Z, "ab"); (900%Z, "abc")]
          (mount GROUPS))))
     = [(1900%Z, "abc")].
Proof.
  assert (Hc : calm (mount GROUPS)) by (split; reflexivity).
  assert (Hn : "a" <> query (mount GROUPS)) by discriminate.
  assert (Hb : burst 0 "a" [(300%Z, "ab"); (900%Z, "abc")]).
  { cbn. repeat split; try lia; discriminate. }
  split; [exact Hc|]. split; [exact Hn|]. split; [exact Hb|].
  rewrite (proj1 (proj2 (proj2
    (debounce_fires_once_after_burst GROUPS (mount GROUPS) 0 "a"
       [(300%Z, "ab"); (900%Z, "abc")] Hc Hn Hb)))).
  reflexivity.
Defined.

(** C5, the claim as worded fails.  Typing ["a"] and deleting it half a
    second later is a burst whose last value is empty: no query ever
    fires.  And after a search for ["x"] has fired, typing ["xy"] and going
    back to ["x"] within the second leaves the debounced value as it was:
    no second query fires. *)
Lemma emptied_input_fires_no_query :
  burst 0 "a" [(500%Z, "")]
  /\ fetches (happened (settle GROUPS
       (type_changes GROUPS [(0%Z, "a"); (500%Z, "")] (mount GROUPS))))
     = []
  /\ burst 5000 "xy" [(5500%Z, "x")]
  /\ fetches (happened (settle GROUPS
       (type_changes GROUPS [(0%Z, "x"); (5000%Z, "xy"); (5500%Z, "x")]
          (mount GROUPS))))
     = [(1000%Z, "x")].
Proof.
  split; [|split; [|split]]; try reflexivity;
    cbn; repeat split; try lia; discriminate.
Qed.

(** * Further properties *)

(** ** The outcome of a settings submission *)

Lemma reports_bind {A B} success text_tag P (m : M A) (k : A -> M B) e1 e2 :
  reports success text_tag False m e1 ->
  (forall a, reports success text_tag P (k a) e2) ->
  reports success text_tag P (bind m k) (e1 ++ e2).
Proof.
  intros Hm Hk w h. destruct (Hm w h) as [ev1 [E1 R1]].
  unfold bind. destruct (m w h) as [[a| |e] h'] eqn:Em; cbn [fst snd] in *;
    subst h'.
  - destruct R1 as [T1 C1]. destruct (Hk a w (h ++ ev1)) as [ev2 [E2 R2]].
    exists (ev1 ++ ev2). split; [now rewrite E2, app_assoc|].
    rewrite filter_app, call_tags_app, T1, C1. cbn [app].
    destruct (fst (k a w (h ++ ev1))) as [b| |e].
    + destruct R2 as [T2 C2]. now rewrite T2, C2.
    + destruct R2 as [t [T2 D]]. exists t. split; [exact T2|].
      destruct D as [D|[D1 [D2 D3]]]; [now left|right].
      now rewrite D2.
    + destruct R2 as [T2 D]. split; [exact T2|].
      destruct D as [D|[pre [g [tag [v [p [-> [Ht Hr]]]]]]]]; [now left|right].
      exists (ev1 ++ pre), g, tag, v, p.
      rewrite !app_assoc in *. auto.
  - exists ev1. split; [reflexivity|].
    destruct R1 as [t [T1 [D|[_ [_ []]]]]]. exists t. auto.
  - exists ev1. split; [reflexivity|]. exact R1.
Qed.

Ltac report_case :=
  rewrite <- ?app_assoc; eexists; (split; [reflexivity|]);
  cbn -[settings_path];
  try solve [split; reflexivity];
  try solve [eexists; split; [reflexivity|left; reflexivity]].

Lemma reports_thumbnail_step success text_tag groupid values :
  reports success text_tag False (thumbnail_step groupid values)
    (if has_file (thumbnail values) then [IMAGE] else []).
Proof.
  intros w h. unfold thumbnail_step.
  destruct (thumbnail values) as [[|tf tl]|]; cbn [has_file].
  1, 3: exists []; rewrite app_nil_r; repeat split.
  unfold_settings. cbn -[settings_path].
  repeat ask_backend; report_case.
Qed.

Lemma reports_icon_step success text_tag groupid values :
  reports success text_tag False (icon_step groupid values)
    (if has_file (icon values) then [ICON] else []).
Proof.
  intros w h. unfold icon_step.
  destruct (icon values) as [[|tf tl]|]; cbn [has_file].
  1, 3: exists []; rewrite app_nil_r; repeat split.
  unfold_settings. cbn -[settings_path].
  repeat ask_backend; report_case.
Qed.

Lemma reports_text_step success (text_tag : GroupField -> bool) groupid tag
    field :
  text_tag tag = true ->
  reports success text_tag False (text_step groupid tag field)
    (if truthy field then [tag] else []).
Proof.
  intros Htag w h. unfold text_step.
  destruct field as [[|c s]|]; cbn [truthy String.eqb negb].
  1, 3: exists []; rewrite app_nil_r; repeat split.
  unfold_settings. cbn -[settings_path].
  repeat ask_backend; report_case.
  split; [reflexivity|]. right.
  exists [], groupid, tag, (String c s), (settings_path groupid).
  rewrite app_nil_r. auto.
Qed.

Lemma truthy_present_field (field : option string) (tag : GroupField) :
  truthy field = true -> (if truthy field then [tag] else []) <> [].
Proof. intros ->. discriminate. Qed.

Lemma reports_form_check values :
  reports (A := unit) settings_success is_text_tag
    (present_fields values <> [])
    (empty <- form_is_empty values ;;
     if empty then toast "Error" (Some empty_form_text) ;; return_
     else toast "Success" (Some "Group data updated") ;; return_) [].
Proof.
  intros w h.
  unfold form_is_empty, files_length, toast, emit, return_, throw, ret, bind,
    present_fields.
  destruct (truthy (description values)) eqn:Ed,
    (truthy (name values)) eqn:En,
    (thumbnail values) as [[|tf tl]|],
    (icon values) as [[|icf icl]|],
    (truthy (jsondescription values)) eqn:Ej;
    cbn [Nat.eqb negb List.length has_file app fst snd];
    try (exists []; rewrite app_nil_r; cbn;
         split; [reflexivity|]; split; [reflexivity|]; left; reflexivity);
    eexists; (split; [reflexivity|]); cbn;
    eexists; (split; [reflexivity|]);
    try (left; reflexivity);
    right; (split; [reflexivity|]); (split; [reflexivity|]);
    discriminate.
Qed.

Lemma reports_settings_mutationFn groupid values :
  reports settings_success is_text_tag (present_fields values <> [])
    (settings_mutationFn groupid values) (present_fields values).
Proof.
  set (P := present_fields values <> []).
  unfold settings_mutationFn, present_fields.
  apply reports_bind; [apply reports_thumbnail_step|intros _].
  apply reports_bind; [apply reports_icon_step|intros _].
  apply reports_bind; [now apply reports_text_step|intros _].
  refine (reports_bind _ _ _ _ _ [] _ _ _).
  { intros w h. exists [ConsoleLog "DESCRIPTION"]. repeat split. }
  intros _.
  apply reports_bind; [now apply reports_text_step|intros _].
  rewrite <- (app_nil_r (if truthy (jsondescription values) then _ else _)).
  apply reports_bind; [now apply reports_text_step|intros _].
  apply reports_form_check.
Qed.

Lemma toast_in_filter (t : event) (tr : list event) :
  is_toast t = true -> In t tr -> In t (filter is_toast tr).
Proof. intros Ht Hin. apply filter_In. auto. Qed.

Lemma settings_mutationFn_not_normal groupid values w h a :
  fst (settings_mutationFn groupid values w h) <> Normal a.
Proof.
  unfold settings_mutationFn.
  repeat (unfold bind at 1;
          match goal with
          | |- context [let (c, h') := ?m w ?x in _] =>
              destruct (m w x) as [[[]| |?] ?]; try discriminate
          end).
Qed.

(** X1: a settings submission shows at most one toast, and it shows one
    exactly when the mutation function returns rather than throws; it
    never falls off its end without a toast. *)
Theorem settings_one_toast_per_submission :
  forall (w : Backend) (groupid : string) (values : GroupSettingsValues),
    let c := fst (run (settings_mutationFn groupid values) w) in
    let tr := snd (run (settings_mutationFn groupid values) w) in
    List.length (filter is_toast tr) <= 1
    /\ (c = Returned <-> List.length (filter is_toast tr) = 1)
    /\ ((exists e, c = Thrown e) <-> filter is_toast tr = []).
Proof.
  intros w groupid values c tr. subst c tr. unfold run.
  destruct (reports_settings_mutationFn groupid values w []) as [evs [E R]].
  pose proof (settings_mutationFn_not_normal groupid values w []) as Hn.
  rewrite E. cbn [app].
  destruct (fst (settings_mutationFn groupid values w [])) as [[]| |e].
  - now contradiction (Hn tt).
  - destruct R as [t [T _]]. rewrite T. cbn.
    repeat split; auto; try discriminate. intros [e He]. discriminate.
  - destruct R as [T _]. rewrite T. cbn.
    repeat split; auto; try discriminate. now exists e.
Qed.

(** X2: the success toast of a settings submission is shown only after
    every present and non-empty field has received its update call, one
    each in the fixed order, and only if there is such a field; it is then
    the single toast and the last event. *)
Theorem settings_success_after_every_update :
  forall (w : Backend) (groupid : string) (values : GroupSettingsValues),
    let c := fst (run (settings_mutationFn groupid values) w) in
    let tr := snd (run (settings_mutationFn groupid values) w) in
    In settings_success tr ->
    c = Returned
    /\ call_tags tr = present_fields values
    /\ present_fields values <> []
    /\ filter is_toast tr = [settings_success].
Proof.
  intros w groupid values c tr. subst c tr. unfold run.
  destruct (reports_settings_mutationFn groupid values w []) as [evs [E R]].
  rewrite E. cbn [app]. intros Hin.
  apply (toast_in_filter settings_success _ eq_refl) in Hin.
  destruct (fst (settings_mutationFn groupid values w [])) as [a| |e].
  - destruct R as [T _]. rewrite T in Hin. contradiction.
  - destruct R as [t [T D]]. rewrite T in Hin.
    destruct Hin as [->|[]].
    destruct D as [D|[_ [C P]]]; [vm_compute in D; discriminate|].
    now rewrite T.
  - destruct R as [T _]. rewrite T in Hin. contradiction.
Qed.

Lemma settings_success_after_every_update_witness :
  In settings_success
     (snd (run (settings_mutationFn "g1" thumbnail_and_name) backend_ok))
  /\ call_tags
       (snd (run (settings_mutationFn "g1" thumbnail_and_name) backend_ok))
     = [IMAGE; NAME].
Proof.
  assert (H : In settings_success
    (snd (run (settings_mutationFn "g1" thumbnail_and_name) backend_ok))).
  { cbn. auto 6. }
  split; [exact H|].
  exact (proj1 (proj2 (settings_success_after_every_update
                         backend_ok "g1" thumbnail_and_name H))).
Defined.

(** X3: when a settings submission throws, it has shown no toast, and the
    error is either the [TypeError] of the final check reading the length
    of an undefined file list, or the rejection of the name, description
    or jsondescription update, which is then the last event.  A rejected
    upload or a rejected thumbnail or icon update is never thrown: the
    [try/catch] of the file steps reports it. *)
Theorem settings_throw_comes_from_text_update :
  forall (w : Backend) (groupid : string) (values : GroupSettingsValues)
         (e : exn),
    fst (run (settings_mutationFn groupid values) w) = Thrown e ->
    let tr := snd (run (settings_mutationFn groupid values) w) in
    filter is_toast tr = []
    /\ (e = length_type_error
        \/ exists pre g tag value path,
             tr = pre ++ [UpDateGroupSettings g tag value path]
             /\ is_text_tag tag = true
             /\ settings_answer w pre g tag value path = Rejected e).
Proof.
  intros w groupid values e. unfold run.
  destruct (reports_settings_mutationFn groupid values w []) as [evs [E R]].
  rewrite E. cbn [app]. intros Hc. rewrite Hc in R.
  destruct R as [T D]. split; [exact T|exact D].
Qed.

Lemma settings_throw_comes_from_text_update_witness :
  fst (run (settings_mutationFn "g1" only_name) backend_offline)
  = Thrown (Error "fetch failed")
  /\ filter is_toast
       (snd (run (settings_mutationFn "g1" only_name) backend_offline)) = [].
Proof.
  assert (H : fst (run (settings_mutationFn "g1" only_name) backend_offline)
              = Thrown (Error "fetch failed")) by reflexivity.
  split; [exact H|].
  exact (proj1 (settings_throw_comes_from_text_update
                  backend_offline "g1" only_name _ H)).
Defined.

(** ** What a settings submission sends *)

Lemma logs_only_bind {A B} ok (m : M A) (k : A -> M B) f1 f2 :
  logs_only ok m f1 -> (forall a, logs_only ok (k a) f2) ->
  logs_only ok (bind m k) (f1 ++ f2).
Proof.
  intros Hm Hk w h. destruct (Hm w h) as [ev1 [E1 [O1 [P1 N1]]]].
  unfold bind. destruct (m w h) as [[a| |e] h'] eqn:Em; cbn [fst snd] in *;
    subst h'.
  - destruct (Hk a w (h ++ ev1)) as [ev2 [E2 [O2 [P2 N2]]]].
    exists (ev1 ++ ev2). rewrite uploads_app, (N1 a eq_refl).
    repeat split.
    + now rewrite E2, app_assoc.
    + apply Forall_app. auto.
    + now apply is_prefix_app_l.
    + intros b Hb. now rewrite (N2 b Hb).
  - exists ev1. repeat split; auto; [now apply is_prefix_app_r|discriminate].
  - exists ev1. repeat split; auto; [now apply is_prefix_app_r|discriminate].
Qed.

Lemma logs_only_quiet {A} (ok : event -> Prop) (m : M A) :
  (forall w h, exists evs,
     snd (m w h) = h ++ evs /\ Forall ok evs /\ uploads evs = []) ->
  logs_only ok m [].
Proof.
  intros H w h. destruct (H w h) as [evs [E [O U]]]. exists evs.
  rewrite U. repeat split; auto. apply is_prefix_nil.
Qed.

Ltac log_case :=
  rewrite <- ?app_assoc; eexists; (split; [reflexivity|]);
  (split; [repeat first [apply Forall_cons | apply Forall_nil];
           cbn -[settings_path first_files present_fields]; auto
          |cbn -[settings_path];
           split; [apply is_prefix_refl || apply is_prefix_nil
                  |intros; reflexivity || discriminate]]).

Lemma logs_thumbnail_step groupid values :
  logs_only (settings_event_ok groupid values)
    (thumbnail_step groupid values)
    (match thumbnail values with Some (f :: _) => [f] | _ => [] end).
Proof.
  intros w h. unfold thumbnail_step.
  destruct (thumbnail values) as [[|tf tl]|] eqn:Et.
  1, 3: exists []; rewrite app_nil_r; repeat split; auto; apply is_prefix_nil.
  assert (Hf : In tf (first_files values))
    by (unfold first_files; rewrite Et; now left).
  assert (Hp : In IMAGE (present_fields values))
    by (unfold present_fields; rewrite Et; now left).
  unfold_settings. cbn -[settings_path].
  repeat ask_backend; log_case.
Qed.

Lemma logs_icon_step groupid values :
  logs_only (settings_event_ok groupid values)
    (icon_step groupid values)
    (match icon values with Some (f :: _) => [f] | _ => [] end).
Proof.
  intros w h. unfold icon_step.
  destruct (icon values) as [[|tf tl]|] eqn:Ei.
  1, 3: exists []; rewrite app_nil_r; repeat split; auto; apply is_prefix_nil.
  assert (Hf : In tf (first_files values))
    by (unfold first_files; rewrite Ei; apply in_or_app; right; now left).
  assert (Hp : In ICON (present_fields values)).
  { unfold present_fields. rewrite Ei. cbn [has_file].
    apply in_or_app. right. now left. }
  unfold_settings. cbn -[settings_path].
  repeat ask_backend; log_case.
Qed.

Lemma logs_text_step groupid values tag field :
  (truthy field = true -> In tag (present_fields values)) ->
  logs_only (settings_event_ok groupid values)
    (text_step groupid tag field) [].
Proof.
  intros Hp. apply logs_only_quiet. intros w h. unfold text_step.
  destruct field as [[|c s]|]; cbn [truthy String.eqb negb] in *.
  1, 3: exists []; rewrite app_nil_r; repeat split; auto.
  specialize (Hp eq_refl).
  unfold_settings. cbn -[settings_path].
  repeat ask_backend; rewrite <- ?app_assoc; eexists;
    (split; [reflexivity|]);
    (split; [repeat first [apply Forall_cons | apply Forall_nil];
             cbn -[settings_path first_files present_fields]; auto
            |reflexivity]).
Qed.

Lemma text_fields_present values :
  (truthy (name values) = true -> In NAME (present_fields values))
  /\ (truthy (description values) = true ->
      In DESCRIPTION (present_fields values))
  /\ (truthy (jsondescription values) = true ->
      In JSONDESCRIPTION (present_fields values)).
Proof.
  unfold present_fields.
  split; [|split]; intros ->; rewrite !in_app_iff; cbn [In]; auto 8.
Qed.

Lemma logs_settings_mutationFn groupid values :
  logs_only (settings_event_ok groupid values)
    (settings_mutationFn groupid values) (first_files values).
Proof.
  destruct (text_fields_present values) as [Hn [Hd Hj]].
  unfold settings_mutationFn, first_files.
  apply logs_only_bind; [apply logs_thumbnail_step|intros _].
  rewrite <- (app_nil_r (match icon values with
                         | Some (f :: _) => [f] | _ => [] end)).
  apply logs_only_bind; [apply logs_icon_step|intros _].
  refine (logs_only_bind _ _ _ [] [] _ _); [now apply logs_text_step|].
  intros _. refine (logs_only_bind _ _ _ [] [] _ _).
  { apply logs_only_quiet. intros w' h. exists [ConsoleLog "DESCRIPTION"].
    split; [reflexivity|]. split; [|reflexivity].
    constructor; [exact I|constructor]. }
  intros _.
  refine (logs_only_bind _ _ _ [] [] _ _); [now apply logs_text_step|].
  intros _.
  refine (logs_only_bind _ _ _ [] [] _ _); [now apply logs_text_step|].
  intros _. apply logs_only_quiet. intros w' h.
  unfold form_is_empty, files_length, toast, emit, return_, throw, ret, bind.
  destruct (truthy (description values)), (truthy (name values)),
    (thumbnail values) as [[|? ?]|], (icon values) as [[|? ?]|],
    (truthy (jsondescription values)); cbn;
    try (exists []; rewrite app_nil_r;
         split; [reflexivity|]; split; [constructor|reflexivity]);
    eexists; (split; [reflexivity|]); (split; [|reflexivity]);
    (constructor; [exact I|constructor]).
Qed.

(** X4: whatever the backend answers, a settings submission hands to the
    upload service at most the first file of the thumbnail input and then
    the first file of the icon input (further files of an input are never
    read), every update it sends is for the submitted group, carries the
    path [/group/<groupid>/settings] and the tag of a present field, and
    it makes no other kind of call. *)
Theorem settings_calls_stay_in_scope :
  forall (w : Backend) (groupid : string) (values : GroupSettingsValues),
    let tr := snd (run (settings_mutationFn groupid values) w) in
    Forall (settings_event_ok groupid values) tr
    /\ is_prefix (uploads tr) (first_files values).
Proof.
  intros w groupid values tr. subst tr. unfold run.
  destruct (logs_settings_mutationFn groupid values w [])
    as [evs [E [O [P _]]]].
  rewrite E. auto.
Qed.

(** ** useGroupAbout: the description mutation *)

Ltac unfold_about :=
  unfold run, about_mutationFn, about_step, bind, onUpDateGroupSettings,
    await, toast, emit, throw, return_, ret.

Ltac ask_about :=
  match goal with
  | |- context [settings_answer ?w ?h ?g ?t ?x ?p] =>
      let E := fresh "Eset" in
      let S := fresh "Est" in
      destruct (settings_answer w h g t x p) as [[?]|?] eqn:E;
      [cbn [status];
       match goal with
       | |- context [Z.eqb ?s 200] => destruct (Z.eqb s 200) eqn:S
       end|]
  end; cbn -[about_path].

(** X5: the description mutation reports an empty form for every
    submission whose description, jsondescription and htmldescription are
    all absent or empty, whatever else the values hold (undefined file
    inputs included) and without any call; and as long as the backend
    rejects no update it always returns, with exactly one toast. *)
Theorem about_mutation_reports_empty_form :
  forall (w : Backend) (groupid : string) (values : GroupSettingsValues),
    (truthy (description values) = false ->
     truthy (jsondescription values) = false ->
     truthy (htmldescription values) = false ->
     run (about_mutationFn groupid values) w
     = (Returned, [Toast "Error" (Some empty_form_text)]))
    /\ (answers_every_update w ->
        fst (run (about_mutationFn groupid values) w) = Returned
        /\ List.length
             (filter is_toast (snd (run (about_mutationFn groupid values) w)))
           = 1).
Proof.
  intros w groupid [th ic nm ds js ht]. split.
  - cbn [description jsondescription htmldescription].
    destruct ds as [[|? ?]|], js as [[|? ?]|], ht as [[|? ?]|];
      cbn; intros; reflexivity || discriminate.
  - intros Hans. unfold answers_every_update in Hans.
    destruct ds as [[|? ?]|], js as [[|? ?]|], ht as [[|? ?]|];
      unfold_about; cbn -[about_path];
      repeat ask_about;
      try solve [split; reflexivity];
      exfalso; eapply Hans; eassumption.
Qed.

Lemma about_mutation_reports_empty_form_witness :
  truthy (description no_values) = false
  /\ truthy (jsondescription no_values) = false
  /\ truthy (htmldescription no_values) = false
  /\ run (about_mutationFn "g1" no_values) backend_offline
     = (Returned, [Toast "Error" (Some empty_form_text)])
  /\ answers_every_update backend_refusing
  /\ fst (run (about_mutationFn "g1" only_description) backend_refusing)
     = Returned.
Proof.
  split; [reflexivity|]. split; [reflexivity|]. split; [reflexivity|].
  split.
  - exact (proj1 (about_mutation_reports_empty_form
                    backend_offline "g1" no_values)
                 eq_refl eq_refl eq_refl).
  - assert (H : answers_every_update backend_refusing)
      by (intros h g tag value path e; discriminate).
    split; [exact H|].
    exact (proj1 (proj2 (about_mutation_reports_empty_form
                           backend_refusing "g1" only_description) H)).
Defined.

Lemma stops_about_step groupid tag field :
  step_stops (about_step groupid tag field)
    (if truthy field then [tag] else []).
Proof.
  intros w h. unfold about_step.
  destruct field as [[|c s]|]; cbn [truthy String.eqb negb].
  1, 3: exists []; rewrite app_nil_r; repeat split; now exists tt.
  unfold bind, onUpDateGroupSettings, await, toast, emit, throw, return_, ret.
  cbn -[about_path].
  repeat ask_about; stop_case.
Qed.

Lemma stops_about_mutationFn groupid values :
  submission_stops (about_mutationFn groupid values) (about_fields values).
Proof.
  unfold about_mutationFn, about_fields.
  apply submission_stops_bind; [apply stops_about_step|intros _].
  apply submission_stops_bind; [apply stops_about_step|intros _].
  rewrite <- (app_nil_r (if truthy (htmldescription values) then _ else _)).
  apply submission_stops_bind; [apply stops_about_step|intros _].
  intros w h. unfold toast, emit, return_, bind.
  destruct (negb (truthy (description values))
            && negb (truthy (jsondescription values))
            && negb (truthy (htmldescription values)));
    eexists; (split; [reflexivity|]); split; reflexivity.
Qed.

(** X6: the description mutation sends its updates in the order
    description, jsondescription, htmldescription, at most one per present
    field and none after a refused one: nothing leaves the client after
    the first update that rejects or is answered with a status other than
    200, and when every update was served every present field has
    received its own.  Each update is for the submitted group and carries
    the path [/about/<groupid>]; the mutation never uploads a file and
    never touches name, icon or thumbnail; and its success toast is shown
    only after every present field was updated, and only if one is
    present. *)
Theorem about_mutation_calls :
  forall (w : Backend) (groupid : string) (values : GroupSettingsValues),
    let tr := snd (run (about_mutationFn groupid values) w) in
    is_prefix (call_tags tr) (about_fields values)
    /\ Forall (about_event_ok groupid) tr
    /\ (In about_success tr ->
        call_tags tr = about_fields values /\ about_fields values <> [])
    /\ stops_at_failed_call w [] tr = true
    /\ (all_calls_served w [] tr = true ->
        call_tags tr = about_fields values)
    /\ (In about_success tr -> all_calls_served w [] tr = true).
Proof.
  intros w groupid values tr. subst tr.
  assert (H3 :
    is_prefix (call_tags (snd (run (about_mutationFn groupid values) w)))
      (about_fields values)
    /\ Forall (about_event_ok groupid)
         (snd (run (about_mutationFn groupid values) w))
    /\ (In about_success (snd (run (about_mutationFn groupid values) w)) ->
        call_tags (snd (run (about_mutationFn groupid values) w))
        = about_fields values /\ about_fields values <> [])
    /\ (In about_success (snd (run (about_mutationFn groupid values) w)) ->
        all_calls_served w []
          (snd (run (about_mutationFn groupid values) w)) = true)).
  { destruct values as [th ic nm ds js ht]. unfold about_fields.
    cbn [description jsondescription htmldescription].
    destruct ds as [[|? ?]|], js as [[|? ?]|], ht as [[|? ?]|];
      unfold_about; cbn -[about_path];
      repeat ask_about;
      (split; [eexists; cbn; reflexivity|]);
      (split; [repeat first [apply Forall_cons | apply Forall_nil];
               cbn -[about_path]; auto|]);
      (split; [unfold about_success; cbn -[about_path];
               intuition (discriminate || congruence)|]);
      unfold about_success; cbn [In]; intros Hin; replay;
      first [reflexivity
            |exfalso; intuition (discriminate || congruence)]. }
  destruct H3 as [P [O [S V]]].
  destruct (stops_about_mutationFn groupid values w []) as [evs [E [St C]]].
  split; [exact P|]. split; [exact O|]. split; [exact S|].
  unfold run in *. rewrite E in *. cbn [app] in *.
  split; [exact St|]. split; [exact C|exact V].
Qed.

Lemma about_mutation_calls_witness :
  In about_success
     (snd (run (about_mutationFn "g1" only_description) backend_ok))
  /\ call_tags (snd (run (about_mutationFn "g1" only_description) backend_ok))
     = [DESCRIPTION].
Proof.
  assert (H : In about_success
    (snd (run (about_mutationFn "g1" only_description) backend_ok))).
  { cbn. auto. }
  split; [exact H|].
  exact (proj1 (proj1 (proj2 (proj2 (about_mutation_calls
                                        backend_ok "g1" only_description)))
                  H)).
Defined.

(** ** useMediaGallery: after a failure, all succeeding, no answer *)

Lemma no_error_toast_in (t : event) (l : list event) :
  filter is_error_toast l = [] -> is_error_toast t = true -> ~ In t l.
Proof.
  intros F Ht Hin.
  assert (H : In t (filter is_error_toast l)) by (apply filter_In; auto).
  now rewrite F in H.
Qed.

Lemma gallery_run_after_video w groupid values h0 :
  video_step groupid values w [] = (Normal tt, h0) ->
  exists c2 ev2,
    image_loop groupid (batch values) w h0 = (c2, h0 ++ ev2)
    /\ filter is_error_toast h0 = []
    /\ run (gallery_mutationFn groupid values) w
       = match c2 return completion unit * list event with
         | Normal _ => (Returned, h0 ++ ev2 ++ [gallery_success])
         | Returned => (Returned, h0 ++ ev2)
         | Thrown e => (Thrown e, h0 ++ ev2)
         end
    /\ c2 <> Returned
    /\ ((filter is_error_toast ev2 = []
         /\ (c2 = Normal tt -> uploads ev2 = batch values))
        \/ (exists evs' t,
              ev2 = evs' ++ [t] /\ is_error_toast t = true
              /\ filter is_error_toast evs' = [] /\ c2 = Normal tt)).
Proof.
  intros Hv.
  destruct (video_step_shape groupid values w [])
    as [c1 [ev1 [E1 [_ [_ [_ [_ [X1 _]]]]]]]].
  rewrite Hv in E1. injection E1 as <- <-.
  destruct (image_loop_shape groupid w (batch values) h0)
    as [c2 [ev2 [E2 [Hc [_ [_ D]]]]]].
  exists c2, ev2. split; [exact E2|]. split; [now apply X1|].
  split.
  - unfold run. rewrite gallery_mutationFn_batch.
    unfold bind at 1. rewrite Hv. unfold bind at 1. rewrite E2.
    destruct c2 as [[]| |e]; try reflexivity.
    unfold toast, emit, return_, bind, gallery_success.
    now rewrite <- app_assoc.
  - split; [exact Hc|].
    destruct D as [D|[evs' [t [A [B [C [_ F]]]]]]]; [now left|right].
    exists evs', t. auto.
Qed.

(** X7: when the video step has completed, a failure toast of the batch
    is always followed at once by the success toast: the mutation returns
    with the trace ending in the failure, then "Group gallery updated". *)
Theorem gallery_success_follows_image_failure :
  forall (w : Backend) (groupid : string) (values : UpdateGalleryValues)
         (h0 : list event) (t : event),
    video_step groupid values w [] = (Normal tt, h0) ->
    is_error_toast t = true ->
    In t (snd (run (gallery_mutationFn groupid values) w)) ->
    fst (run (gallery_mutationFn groupid values) w) = Returned
    /\ exists pre,
         snd (run (gallery_mutationFn groupid values) w)
         = pre ++ [t; gallery_success].
Proof.
  intros w groupid values h0 t Hv Ht Hin.
  destruct (gallery_run_after_video w groupid values h0 Hv)
    as [c2 [ev2 [_ [F0 [Hrun [Hc D]]]]]].
  rewrite Hrun in *. clear Hrun.
  destruct D as [[F2 _]|[evs' [t' [-> [Ht' [F' ->]]]]]].
  - exfalso.
    assert (Hno : ~ In t (h0 ++ ev2 ++ [gallery_success])).
    { apply no_error_toast_in; [|exact Ht].
      now rewrite !filter_app, F0, F2. }
    destruct c2 as [[]| |e]; cbn [fst snd] in Hin.
    + contradiction.
    + contradiction.
    + apply Hno. apply in_app_or in Hin as [H|H];
        apply in_or_app; [now left|right]. apply in_or_app. now left.
  - cbn [fst snd] in *. split; [reflexivity|].
    exists (h0 ++ evs'). rewrite <- !app_assoc. cbn [app].
    rewrite !in_app_iff in Hin. cbn [In] in Hin.
    destruct Hin as [H|[[H|[H|[]]]|[H|[]]]].
    + exfalso. exact (no_error_toast_in t h0 F0 Ht H).
    + exfalso. exact (no_error_toast_in t evs' F' Ht H).
    + now subst t'.
    + subst t. discriminate.
Qed.

Lemma gallery_success_follows_image_failure_witness :
  video_step "g1" batch_abc (backend_rejecting "b.png") [] = (Normal tt, [])
  /\ fst (run (gallery_mutationFn "g1" batch_abc) (backend_rejecting "b.png"))
     = Returned.
Proof.
  split; [reflexivity|].
  refine (proj1 (gallery_success_follows_image_failure
    (backend_rejecting "b.png") "g1" batch_abc []
    (Toast "Error" (Some "Looks like something went wrong!"))
    eq_refl eq_refl _)).
  cbn. auto 8.
Defined.

Section WholeBatch.
Variables (w : Backend) (groupid : string) (ups : File -> string).
Variable files : list File.
Hypothesis Hupload : forall h f, In f files ->
  upload_answer w h f = Fulfilled (Some {| uuid := ups f |}).
Hypothesis Hcommit : forall h f, In f files ->
  exists m, gallery_answer w h groupid (ups f)
            = Fulfilled (Some {| mstatus := 200; message := m |}).

Lemma image_loop_all_committed :
  forall dn h, incl dn files ->
    image_loop groupid dn w h
    = (Normal tt, h ++ flat_map (committed_events groupid ups) dn).
Proof.
  induction dn as [|f dn IH]; intros h Hin.
  - cbn. now rewrite app_nil_r.
  - cbn [flat_map image_loop]. unfold bind at 1.
    unfold upload_uploadFile, await at 1.
    rewrite (Hupload h f (Hin f (or_introl eq_refl))).
    unfold bind at 1. unfold onUpdateGroupGallery, await at 1. cbn [uuid].
    destruct (Hcommit (h ++ [UploadFile f]) f (Hin f (or_introl eq_refl)))
      as [m ->].
    cbn [mstatus Z.eqb Pos.eqb]. unfold bind at 1. unfold emit at 1.
    rewrite IH by (intros x Hx; apply Hin; now right).
    unfold committed_events. now rewrite <- !app_assoc.
Qed.
End WholeBatch.

(** X8: when every file of the batch is stored by the upload service and
    every commit is answered with 200, the whole batch is uploaded and
    committed in submission order, each file's commit directly after its
    upload; the persisted entries are those of all files, in order, after
    what the video step persisted; no failure toast is shown and the
    mutation ends with the success toast. *)
Theorem gallery_whole_batch_persisted :
  forall (w : Backend) (groupid : string) (values : UpdateGalleryValues)
         (h0 : list event) (ups : File -> string),
    video_step groupid values w [] = (Normal tt, h0) ->
    (forall h f, In f (batch values) ->
       upload_answer w h f = Fulfilled (Some {| uuid := ups f |})) ->
    (forall h f, In f (batch values) ->
       exists m, gallery_answer w h groupid (ups f)
                 = Fulfilled (Some {| mstatus := 200; message := m |})) ->
    let tr := snd (run (gallery_mutationFn groupid values) w) in
    run (gallery_mutationFn groupid values) w
    = (Returned,
       h0 ++ flat_map (committed_events groupid ups) (batch values)
          ++ [gallery_success])
    /\ uploads tr = batch values
    /\ persisted_gallery w tr
       = persisted_gallery w h0 ++ map ups (batch values)
    /\ filter is_error_toast tr = [].
Proof.
  intros w groupid values h0 ups Hv Hup Hcm tr.
  destruct (gallery_run_after_video w groupid values h0 Hv)
    as [c2 [ev2 [E2 [F0 [Hrun _]]]]].
  rewrite (image_loop_all_committed w groupid ups (batch values) Hup Hcm
             (batch values) h0 (incl_refl _)) in E2.
  injection E2 as <- E2. apply app_inv_head in E2. subst ev2.
  subst tr. rewrite Hrun. cbn [fst snd].
  destruct (committed_events_read groupid ups (batch values)) as [Hu Ht].
  destruct (video_step_shape groupid values w [])
    as [c1 [ev1 [E1 [U1 _]]]].
  rewrite Hv in E1. injection E1 as _ <-.
  split; [reflexivity|]. split; [|split].
  - rewrite !uploads_app, U1, Hu. cbn. now rewrite app_nil_r.
  - unfold persisted_gallery. rewrite persisted_after_app. f_equal.
    cbn [app]. rewrite persisted_after_app.
    rewrite (persisted_committed w groupid ups (batch values) Hcm
               (batch values) h0 (incl_refl _)).
    cbn. now rewrite app_nil_r.
  - rewrite !filter_app, F0, Ht. reflexivity.
Qed.

Lemma gallery_whole_batch_persisted_witness :
  video_step "g1" batch_abc backend_ok [] = (Normal tt, [])
  /\ persisted_gallery backend_ok
       (snd (run (gallery_mutationFn "g1" batch_abc) backend_ok))
     = ["uuid:a.png"; "uuid:b.png"; "uuid:c.png"].
Proof.
  split; [reflexivity|].
  refine (proj1 (proj2 (proj2 (gallery_whole_batch_persisted
    backend_ok "g1" batch_abc [] stored_id eq_refl _ _)))).
  - intros h f _. reflexivity.
  - intros h f _. exists None. reflexivity.
Defined.



(** ** useGroupChatOnline: a key without a payload *)

Lemma for_in_until_missing (state : PresenceState) w :
  forall keys h,
    for_in keys (fun user =>
      match state_get state user with
      | Some (p :: _) => emit (Dispatch (onOnline [userid (member p)]))
      | _ =>
          throw (TypeError
            "Cannot read properties of undefined (reading 'member')")
      end) w h
    = (if forallb (has_first_payload state) keys then Normal tt
       else Thrown member_type_error,
       h ++ map (fun id => Dispatch (onOnline [id]))
              (ids_until_missing (map (first_userid state) keys))).
Proof.
  induction keys as [|user keys IH]; intros h.
  - cbn. now rewrite app_nil_r.
  - cbn [for_in map forallb]. unfold bind at 1.
    unfold has_first_payload at 1. unfold first_userid at 1 2.
    destruct (state_get state user) as [[|p ps]|].
    + cbn. now rewrite app_nil_r.
    + unfold emit at 1. rewrite IH. cbn [andb ids_until_missing map].
      now rewrite <- app_assoc.
    + cbn. now rewrite app_nil_r.
Qed.

(** X10: on any snapshot the sync listener dispatches, in key order, the
    first payload's userid of every key up to the first key that holds no
    payload; there it throws a [TypeError], and the keys after it are not
    dispatched.  It completes normally exactly when every key holds a
    payload. *)
Theorem presence_sync_stops_at_missing_payload :
  forall (w : Backend) (state : PresenceState),
    let c := fst (run (on_presence_sync state) w) in
    let tr := snd (run (on_presence_sync state) w) in
    online_ids tr
    = ids_until_missing (map (first_userid state) (map fst state))
    /\ (c = Normal tt
        <-> forallb (has_first_payload state) (map fst state) = true)
    /\ (c <> Normal tt -> c = Thrown member_type_error).
Proof.
  intros w state c tr. subst c tr.
  assert (E : run (on_presence_sync state) w
    = (if forallb (has_first_payload state) (map fst state) then Normal tt
       else Thrown member_type_error,
       ConsoleLogState state
       :: map (fun id => Dispatch (onOnline [id]))
            (ids_until_missing
               (map (first_userid state) (map fst state))))).
  { unfold run, on_presence_sync. unfold bind at 1. unfold emit at 1.
    cbn [app]. now rewrite for_in_until_missing. }
  rewrite E. cbn [fst snd].
  split; [|split].
  - unfold online_ids at 1. cbn [flat_map app]. apply online_ids_dispatches.
  - destruct (forallb (has_first_payload state) (map fst state)); cbn;
      split; intros H; try reflexivity; discriminate H.
  - destruct (forallb (has_first_payload state) (map fst state)); cbn;
      intros H; [now contradiction H|reflexivity].
Qed.

Lemma presence_sync_stops_at_missing_payload_witness :
  fst (run (on_presence_sync presence_with_gap) backend_ok) <> Normal tt
  /\ fst (run (on_presence_sync presence_with_gap) backend_ok)
     = Thrown member_type_error
  /\ online_ids (snd (run (on_presence_sync presence_with_gap) backend_ok))
     = ["u1"].
Proof.
  assert (H : fst (run (on_presence_sync presence_with_gap) backend_ok)
              <> Normal tt) by discriminate.
  split; [exact H|]. split.
  - exact (proj2 (proj2 (presence_sync_stops_at_missing_payload
                           backend_ok presence_with_gap)) H).
  - exact (proj1 (presence_sync_stops_at_missing_payload
                    backend_ok presence_with_gap)).
Defined.

(** ** useSearch: invariants of the trace *)

Lemma fetches_app (l l' : list (Z * event)) :
  fetches (l ++ l') = fetches l ++ fetches l'.
Proof. unfold fetches. apply flat_map_app. Qed.

Lemma network_events_app (l l' : list (Z * event)) :
  network_events (l ++ l') = network_events l ++ network_events l'.
Proof. unfold network_events. apply filter_app. Qed.

(** What one run of the second effect adds to the trace. *)
Lemma debounce_effect_read search t value :
  fetches (stamp t (debounce_effect search value))
  = (if String.eqb value "" then [] else [(t, value)])
  /\ network_events (stamp t (debounce_effect search value))
     = match search with
       | GROUPS =>
           map group_search_of
             (fetches (stamp t (debounce_effect search value)))
       | POSTS => []
       end.
Proof.
  unfold debounce_effect, refetch, stamp.
  destruct (String.eqb value ""), search; split; reflexivity.
Qed.

Lemma sound_trace_effect search t value tr :
  sound_trace search tr ->
  sound_trace search (tr ++ stamp t (debounce_effect search value)).
Proof.
  intros [Hf Hn]. destruct (debounce_effect_read search t value) as [Ef En].
  split.
  - rewrite fetches_app, Ef. apply Forall_app. split; [exact Hf|].
    destruct (String.eqb_spec value ""); constructor; auto.
  - rewrite network_events_app, Hn, En, fetches_app.
    destruct search; [now rewrite map_app|reflexivity].
Qed.

Lemma fire_sound search st :
  sound_trace search (happened st) ->
  sound_trace search (happened (fire search st)).
Proof.
  intros H. unfold fire.
  destruct (delayInputTimeoutId st) as [[deadline q]|]; [|exact H].
  destruct (String.eqb q (debounce st)); cbn [happened]; [exact H|].
  now apply sound_trace_effect.
Qed.

Lemma onSearchQuery_sound search t value st :
  sound_trace search (happened st) ->
  sound_trace search (happened (onSearchQuery search t value st)).
Proof.
  intros H. unfold onSearchQuery.
  assert (Ha : sound_trace search (happened (advance search t st))).
  { unfold advance. destruct (delayInputTimeoutId st) as [[deadline q]|];
      [|exact H].
    destruct (Z.leb deadline t); [now apply fire_sound|exact H]. }
  destruct (String.eqb value (query (advance search t st))); exact Ha.
Qed.

Lemma type_changes_sound search changes :
  forall st, sound_trace search (happened st) ->
    sound_trace search (happened (type_changes search changes st)).
Proof.
  induction changes as [|[t value] changes IH]; intros st H; [exact H|].
  cbn [type_changes]. apply IH. now apply onSearchQuery_sound.
Qed.

Lemma mount_sound search : sound_trace search (happened (mount search)).
Proof. destruct search; split; cbn; auto. Qed.

(** X11: a ["POSTS"] search never reaches the server: whatever is typed
    and whenever, before and after the last timer has run out, the trace
    of the mounted hook holds no network call. *)
Theorem posts_search_never_calls_server :
  forall (changes : list (Z * string)),
    network_events (happened (type_changes POSTS changes (mount POSTS))) = []
    /\ network_events
         (happened (settle POSTS (type_changes POSTS changes (mount POSTS))))
       = [].
Proof.
  intros changes.
  pose proof (type_changes_sound POSTS changes _ (mount_sound POSTS)) as H.
  split; [exact (proj2 H)|].
  exact (proj2 (fire_sound POSTS _ H)).
Qed.

Lemma fetches_debounce_effect search deadline q :
  fetches (stamp deadline (debounce_effect search q))
  = if String.eqb q "" then [] else [(deadline, q)].
Proof.
  unfold debounce_effect, refetch, search_queryFn.
  destruct (String.eqb q ""), search; reflexivity.
Qed.

Lemma answers_a_change_more seen change fetch :
  answers_a_change seen fetch -> answers_a_change (seen ++ [change]) fetch.
Proof.
  intros [Hne Hin]. split; [exact Hne|]. apply in_or_app. now left.
Qed.

Lemma mount_debounced search : debounced_trace [] (mount search).
Proof.
  unfold debounced_trace, pending_queries, mount.
  cbn [happened delayInputTimeoutId].
  rewrite fetches_debounce_effect. cbn.
  split; [constructor|]. split; [now left|lia].
Qed.

Lemma fire_debounced search seen st :
  debounced_trace seen st -> debounced_trace seen (fire search st).
Proof.
  unfold debounced_trace, pending_queries, fire.
  destruct (delayInputTimeoutId st) as [[deadline q]|] eqn:Et;
    [|rewrite Et; tauto].
  intros [Hf [Hq Hn]].
  destruct (String.eqb q (debounce st)); cbn [happened delayInputTimeoutId].
  - split; [exact Hf|]. split; [exact I|]. lia.
  - rewrite fetches_app, fetches_debounce_effect.
    destruct (String.eqb q "") eqn:Eq.
    + rewrite app_nil_r. split; [exact Hf|]. split; [exact I|]. lia.
    + apply String.eqb_neq in Eq.
      split; [|split; [exact I|rewrite length_app; cbn; lia]].
      apply Forall_app. split; [exact Hf|].
      constructor; [|constructor]. split; [exact Eq|].
      cbn [fst snd]. destruct Hq as [Hq|Hq]; [contradiction|exact Hq].
Qed.

Lemma advance_debounced search t seen st :
  debounced_trace seen st -> debounced_trace seen (advance search t st).
Proof.
  intros H. unfold advance.
  destruct (delayInputTimeoutId st) as [[deadline q]|]; [|exact H].
  destruct (Z.leb deadline t); [now apply fire_debounced|exact H].
Qed.

Lemma onSearchQuery_debounced search t value seen st :
  debounced_trace seen st ->
  debounced_trace (seen ++ [(t, value)]) (onSearchQuery search t value st).
Proof.
  intros H. apply (advance_debounced search t) in H.
  unfold onSearchQuery. cbv zeta.
  destruct H as [Hf [Hq Hn]].
  assert (Hf' : Forall (answers_a_change (seen ++ [(t, value)]))
                  (fetches (happened (advance search t st)))).
  { eapply Forall_impl; [|exact Hf].
    intros fetch. apply answers_a_change_more. }
  unfold debounced_trace, pending_queries in *.
  rewrite length_app. cbn [List.length].
  destruct (String.eqb value (query (advance search t st))).
  - split; [exact Hf'|]. split; [|lia].
    destruct (delayInputTimeoutId (advance search t st)) as [[deadline q]|];
      [|exact I].
    destruct Hq as [Hq|Hq]; [now left|right].
    apply in_or_app. now left.
  - cbn [happened delayInputTimeoutId].
    split; [exact Hf'|]. split.
    + right. apply in_or_app. right. left.
      f_equal. lia.
    + destruct (delayInputTimeoutId (advance search t st)) as [[deadline q]|];
        [destruct (String.eqb q "")|]; destruct (String.eqb value ""); lia.
Qed.

Lemma type_changes_debounced search :
  forall changes seen st,
    debounced_trace seen st ->
    debounced_trace (seen ++ changes) (type_changes search changes st).
Proof.
  induction changes as [|[t value] changes IH]; intros seen st H.
  - rewrite app_nil_r. exact H.
  - cbn [type_changes].
    replace (seen ++ (t, value) :: changes)
      with ((seen ++ [(t, value)]) ++ changes)
      by (rewrite <- app_assoc; reflexivity).
    apply IH. now apply onSearchQuery_debounced.
Qed.

(** X12: every downstream query answers a change of the input.  Whatever
    is typed after the mount, and whenever, a query never carries an empty
    term; its term is one a change of the input typed, and the query is
    issued when the timer set by that change runs out, 1000 ms after it;
    and there are never more queries than changes. *)
Theorem search_queries_are_never_empty :
  forall (search : SearchKind) (changes : list (Z * string)),
    let tr :=
      happened (settle search (type_changes search changes (mount search))) in
    Forall (fun fetch =>
              snd fetch <> ""
              /\ In ((fst fetch - 1000)%Z, snd fetch) changes)
      (fetches tr)
    /\ List.length (fetches tr) <= List.length changes.
Proof.
  intros search changes tr. subst tr.
  destruct (fire_debounced search _ _
              (type_changes_debounced search changes [] _
                 (mount_debounced search))) as [Hf [_ Hn]].
  cbn [app] in Hf, Hn. split; [exact Hf|].
  unfold settle. lia.
Qed.

(** ** useSearch: changes that come slowly *)

Lemma slow_changes_each_fire search :
  forall changes t value st,
    delayInputTimeoutId st = Some ((t + 1000)%Z, value) ->
    query st = value ->
    debounce st <> value ->
    spaced t value changes ->
    happened (settle search (type_changes search changes st))
    = happened st
      ++ debounced_effects search ((t, value) :: changes)
    /\ debounce (settle search (type_changes search changes st))
       = snd (last changes (t, value)).
Proof.
  induction changes as [|[t' value'] changes IH]; intros t value st Ht Hq Hd Hs.
  - cbn [type_changes last snd]. unfold settle, fire. rewrite Ht.
    assert (E : String.eqb value (debounce st) = false)
      by (apply String.eqb_neq; congruence).
    rewrite E. cbn. now rewrite app_nil_r.
  - destruct Hs as [Hle [Hne Hs]].
    cbn [type_changes]. rewrite last_cons.
    assert (E : onSearchQuery search t' value' st
                = {| query := value'; debounce := value;
                     delayInputTimeoutId := Some ((t' + 1000)%Z, value');
                     happened :=
                       happened st
                       ++ stamp (t + 1000) (debounce_effect search value) |}).
    { unfold onSearchQuery, advance, fire. rewrite Ht.
      destruct (Z.leb_spec (t + 1000) t') as [_|Hlt]; [|lia].
      assert (E : String.eqb value (debounce st) = false)
        by (apply String.eqb_neq; congruence).
      rewrite E. cbn [query]. rewrite Hq.
      apply String.eqb_neq in Hne. now rewrite Hne. }
    rewrite E.
    match type of E with
    | _ = ?st1 =>
        destruct (IH t' value' st1) as [Hh Hdeb];
          [reflexivity|reflexivity|cbn; congruence|exact Hs|]
    end.
    split; [|exact Hdeb].
    rewrite Hh. cbn [happened]. rewrite <- app_assoc. reflexivity.
Qed.

Lemma fetches_debounced_effects search (l : list (Z * string)) :
  fetches (debounced_effects search l)
  = flat_map (fun change =>
      if String.eqb (snd change) "" then []
      else [((fst change + 1000)%Z, snd change)]) l.
Proof.
  unfold debounced_effects.
  induction l as [|[t v] l IH]; [reflexivity|].
  cbn [flat_map fst snd]. rewrite fetches_app, IH.
  now rewrite (proj1 (debounce_effect_read search (t + 1000) v)).
Qed.

(** X13: after a calm state, changes that each alter the text and come at
    least 1000 ms apart are all debounced: each one runs the second effect
    once, 1000 ms after it occurred, in order; so every non-empty value
    typed gets its own query, and every emptying of the input its own
    [onClearSearch]. *)
Theorem slow_typing_queries_every_value :
  forall (search : SearchKind) (st : SearchHook) (t1 : Z) (v1 : string)
         (changes : list (Z * string)),
    calm st -> v1 <> query st -> spaced t1 v1 changes ->
    let st' := settle search (type_changes search ((t1, v1) :: changes) st) in
    happened st'
    = happened st ++ debounced_effects search ((t1, v1) :: changes)
    /\ fetches (debounced_effects search ((t1, v1) :: changes))
       = flat_map (fun change =>
           if String.eqb (snd change) "" then []
           else [((fst change + 1000)%Z, snd change)])
           ((t1, v1) :: changes)
    /\ debounce st' = snd (last changes (t1, v1)).
Proof.
  intros search st t1 v1 changes Hcalm Hne Hs st'. subst st'.
  cbn [type_changes].
  rewrite (first_change_starts_timer search t1 v1 st Hcalm Hne).
  assert (Hdq : debounce st <> v1)
    by (destruct Hcalm as [E _]; rewrite E; congruence).
  destruct (slow_changes_each_fire search changes t1 v1
              {| query := v1; debounce := debounce st;
                 delayInputTimeoutId := Some ((t1 + 1000)%Z, v1);
                 happened := happened st |} eq_refl eq_refl Hdq Hs)
    as [Hh Hd].
  split; [exact Hh|]. split; [|exact Hd].
  apply fetches_debounced_effects.
Qed.

Lemma slow_typing_queries_every_value_witness :
  calm (mount GROUPS)
  /\ "a" <> query (mount GROUPS)
  /\ spaced 0 "a" [(1500%Z, "ab"); (4000%Z, "")]
  /\ happened (settle GROUPS
       (type_changes GROUPS [(0%Z, "a"); (1500%Z, "ab"); (4000%Z, "")]
          (mount GROUPS)))
     = [(0%Z, Dispatch onClearSearch);
        (1000%Z, Refetch "a"); (1000%Z, SearchGroups "GROUPS" "a");
        (2500%Z, Refetch "ab"); (2500%Z, SearchGroups "GROUPS" "ab");
        (5000%Z, Dispatch onClearSearch)].
Proof.
  assert (Hc : calm (mount GROUPS)) by (split; reflexivity).
  assert (Hn : "a" <> query (mount GROUPS)) by discriminate.
  assert (Hs : spaced 0 "a" [(1500%Z, "ab"); (4000%Z, "")]).
  { cbn. repeat split; try lia; discriminate. }
  split; [exact Hc|]. split; [exact Hn|]. split; [exact Hs|].
  rewrite (proj1 (slow_typing_queries_every_value GROUPS (mount GROUPS) 0 "a"
                    [(1500%Z, "ab"); (4000%Z, "")] Hc Hn Hs)).
  reflexivity.
Defined.

(** ** useGroupSettings: invalidation and previews *)

Lemma settings_mutationFn_never_invalidates w groupid values key :
  filter (is_invalidation key)
    (snd (run (settings_mutationFn groupid values) w)) = [].
Proof.
  destruct (logs_settings_mutationFn groupid values w [])
    as [evs [E [H _]]].
  unfold run. rewrite E. cbn [app]. clear E.
  induction H as [|e l He _ IH]; [reflexivity|].
  cbn [filter]. destruct e; cbn in He |- *; try contradiction; exact IH.
Qed.

Lemma returns_at_toast_bind {A B} (m : M A) (k : A -> M B) :
  returns_at_toast m -> (forall a, returns_at_toast (k a)) ->
  returns_at_toast (bind m k).
Proof.
  intros Hm Hk w h. destruct (Hm w h) as [ev1 [E1 R1]].
  unfold bind. destruct (m w h) as [[a| |e] h'] eqn:Em; cbn [fst snd] in *;
    subst h'.
  - destruct (Hk a w (h ++ ev1)) as [ev2 [E2 R2]].
    exists (ev1 ++ ev2). split; [now rewrite E2, app_assoc|].
    intros Hr. destruct (R2 Hr) as [pre [t [-> Ht]]].
    exists (ev1 ++ pre), t. now rewrite app_assoc.
  - exists ev1. auto.
  - exists ev1. split; [reflexivity|discriminate].
Qed.

Ltac toast_case :=
  rewrite <- ?app_assoc; cbn [app];
  cbn [fst snd];
  match goal with
  | |- exists evs, ?h ++ ?l = _ /\ _ =>
      exists l; split; [reflexivity|];
      intros Hr; try discriminate Hr;
      exists (removelast l); eexists; split; reflexivity
  end.

Lemma returns_at_toast_settings groupid values :
  returns_at_toast (settings_mutationFn groupid values).
Proof.
  unfold settings_mutationFn.
  apply returns_at_toast_bind; [|intros _].
  { intros w h. unfold thumbnail_step.
    destruct (thumbnail values) as [[|tf tl]|].
    1, 3: exists []; rewrite app_nil_r; split; [reflexivity|discriminate].
    unfold_settings. cbn -[settings_path]. repeat ask_backend; toast_case. }
  apply returns_at_toast_bind; [|intros _].
  { intros w h. unfold icon_step.
    destruct (icon values) as [[|tf tl]|].
    1, 3: exists []; rewrite app_nil_r; split; [reflexivity|discriminate].
    unfold_settings. cbn -[settings_path]. repeat ask_backend; toast_case. }
  assert (Htext : forall tag field,
            returns_at_toast (text_step groupid tag field)).
  { intros tag field w h. unfold text_step.
    destruct field as [[|c s]|]; cbn [String.eqb].
    1, 3: exists []; rewrite app_nil_r; split; [reflexivity|discriminate].
    unfold_settings. cbn -[settings_path]. repeat ask_backend; toast_case. }
  apply returns_at_toast_bind; [apply Htext|intros _].
  apply returns_at_toast_bind; [|intros _].
  { intros w h. exists [ConsoleLog "DESCRIPTION"].
    split; [reflexivity|discriminate]. }
  apply returns_at_toast_bind; [apply Htext|intros _].
  apply returns_at_toast_bind; [apply Htext|intros _].
  intros w h.
  unfold form_is_empty, files_length, toast, emit, return_, throw, ret, bind.
  destruct (truthy (description values)), (truthy (name values)),
    (thumbnail values) as [[|? ?]|], (icon values) as [[|? ?]|],
    (truthy (jsondescription values)); cbn;
    try (exists []; rewrite app_nil_r; split; [reflexivity|discriminate]);
    eexists; (split; [reflexivity|]); intros _;
    exists []; eexists; split; reflexivity.
Qed.

(** X14: one [update] of the settings mutation invalidates the
    ["group-info"] query exactly when the mutation function has shown a
    toast, whichever toast it is: after the success toast, and also after
    an error toast (a failed field, an empty form).  When the function
    throws, nothing is invalidated and nothing is shown; the caller never
    sees the error. *)
Theorem settings_update_invalidates_after_any_toast :
  forall (w : Backend) (groupid : string) (values : GroupSettingsValues),
    let tr := snd (run (settings_update groupid values) w) in
    fst (run (settings_update groupid values) w) = Normal tt
    /\ List.length (filter (is_invalidation "group-info") tr)
       = List.length (filter is_toast tr)
    /\ List.length (filter is_toast tr) <= 1
    /\ (filter is_toast tr <> [] ->
        exists pre t,
          is_toast t = true
          /\ tr = pre ++ [t; InvalidateQueries "group-info"]).
Proof.
  intros w groupid values tr. subst tr.
  pose proof (settings_mutationFn_never_invalidates w groupid values
                "group-info") as Hinv.
  destruct (reports_settings_mutationFn groupid values w []) as [evs [E R]].
  pose proof (settings_mutationFn_not_normal groupid values w []) as Hn.
  unfold run in *. cbn zeta in *.
  unfold settings_update, try_catch, bind, fulfils, emit, ret.
  destruct (settings_mutationFn groupid values w []) as [[[]| |e] h'] eqn:Em;
    cbn [fst snd app] in *; subst h'.
  - now contradiction (Hn tt).
  - rewrite !filter_app, Hinv. cbn. rewrite app_nil_r.
    destruct R as [t [T _]]. rewrite T. cbn.
    split; [reflexivity|]. split; [reflexivity|]. split; [lia|].
    intros _.
    destruct (returns_at_toast_settings groupid values w [])
      as [evs' [E' L]].
    rewrite Em in E', L. cbn [fst snd app] in E', L. subst evs'.
    destruct (L eq_refl) as [pre [t' [-> Ht']]].
    exists pre, t'. split; [exact Ht'|now rewrite <- app_assoc].
  - rewrite Hinv. destruct R as [T _]. rewrite T. cbn.
    repeat split; auto. intros H. now contradiction H.
Qed.

(** X15: the preview callback sets the thumbnail preview only when the
    icon input is defined: with [icon] undefined a picked thumbnail gets
    no preview.  It previews only the first file of each input, leaves a
    preview as it is when the input is empty, and throws a [TypeError]
    exactly when [icon] is defined and [thumbnail] is not. *)
Theorem previews_depend_on_icon :
  forall (values : GroupSettingsValues),
    let c := fst (previews values) in
    let tr := snd (previews values) in
    (forall f, In (SetPreviewThumbnail f) tr
       <-> icon values <> None /\ exists l, thumbnail values = Some (f :: l))
    /\ (forall f, In (SetPreviewIcon f) tr
          <-> exists l, icon values = Some (f :: l))
    /\ ((exists e, c = Thrown e)
        <-> icon values <> None /\ thumbnail values = None).
Proof.
  intros [th ic nm ds js ht]. unfold previews. cbn [thumbnail icon].
  destruct ic as [[|icf icl]|], th as [[|tf tl]|]; cbn;
    (split; [|split]); try intros f; split;
    try solve [intros [H|[H|[]]]; try discriminate;
               injection H as <-; split; [discriminate|eauto]];
    try solve [intros [H|[]]; try discriminate;
               injection H as <-; split; [discriminate|eauto]];
    try solve [intros [H|[]]; try discriminate; injection H as <-; eauto];
    try solve [intros [H|[H|[]]]; try discriminate;
               injection H as <-; eauto];
    try solve [intros []];
    try solve [intros [_ [l H]]; discriminate H];
    try solve [intros [_ [l H]]; injection H as <- _; auto];
    try solve [intros [l H]; discriminate H];
    try solve [intros [l H]; injection H as <- _; auto];
    try solve [intros [e H]; discriminate H];
    try solve [intros [H _]; now contradiction H];
    try solve [intros [_ H]; discriminate H];
    try solve [intros _; split; [discriminate|reflexivity]];
    try solve [intros _; eexists; reflexivity].
Qed.

(** ** The group menu *)

Lemma string_length_app (a b : string) :
  String.length (a ++ b) = String.length a + String.length b.
Proof. induction a as [|c a IH]; cbn; [reflexivity|now rewrite IH]. Qed.

(** X16: for every group, section and menu, the desktop link of an entry
    goes to [/group/<groupId><path>] and its mobile link to
    [/groups/<groupId><path>], whether or not the path is ["/courses"]:
    the two targets of an entry are never the same address.  Both set the
    same section when clicked and are highlighted together, exactly when
    the section is the entry's path; the desktop link shows its icon only
    when highlighted, the mobile link always. *)
Theorem menu_links_differ_by_orientation :
  forall (groupId section : string) (groupPageMenu : list MenuItem),
    map href (Menu desktop groupId section groupPageMenu)
    = map (fun item => ("/group/" ++ groupId ++ item_path item)%string)
        groupPageMenu
    /\ map href (Menu mobile groupId section groupPageMenu)
       = map (fun item => ("/groups/" ++ groupId ++ item_path item)%string)
           groupPageMenu
    /\ Forall2
         (fun d m =>
            href d <> href m
            /\ sets_section d = sets_section m
            /\ highlighted d = highlighted m
            /\ (highlighted d = true <-> section = sets_section d)
            /\ shows_icon d = highlighted d
            /\ shows_icon m = true)
         (Menu desktop groupId section groupPageMenu)
         (Menu mobile groupId section groupPageMenu).
Proof.
  intros groupId section groupPageMenu. unfold Menu.
  split; [|split].
  - rewrite map_map. apply map_ext. intros item. cbn.
    now destruct (String.eqb (item_path item) "/courses").
  - rewrite map_map. apply map_ext. intros item. cbn.
    now destruct (String.eqb (item_path item) "/courses").
  - induction groupPageMenu as [|item items IH]; cbn [map]; constructor;
      [|exact IH].
    cbn -[String.append].
    destruct (String.eqb (item_path item) "/courses");
      (split; [|split; [reflexivity|split; [reflexivity|split;
         [apply String.eqb_eq|split; reflexivity]]]]);
      intros H; apply (f_equal String.length) in H;
      rewrite !string_length_app in H; cbn in H; lia.
Qed.

(** ** The media gallery: removing an entry *)

Lemma removal_calls_app (l l' : list removal_event) :
  removal_calls (l ++ l') = removal_calls l ++ removal_calls l'.
Proof. unfold removal_calls. apply flat_map_app. Qed.

Lemma remove_mutationFn_calls_once answer groupid mediaId :
  removal_calls (snd (remove_mutationFn answer groupid mediaId)) = [mediaId].
Proof.
  unfold remove_mutationFn.
  destruct answer as [[r|]|e]; [destruct (Z.eqb (mstatus r) 200)| |];
    reflexivity.
Qed.

Lemma gallery_click_invariant answers props c trashes removes ui :
  gallery_invariant props trashes removes ui ->
  gallery_invariant props
    (trashes + if is_trash c then 1 else 0)
    (removes + if is_remove c then 1 else 0)
    (gallery_click answers props ui c).
Proof.
  intros [Hc [Hr [Hoff [Ht Hm]]]].
  destruct c as [i|j|j]; cbn [gallery_click is_trash is_remove].
  - destruct (remove_button_rendered props
              && negb (remove_button_disabled props)) eqn:Eon.
    + destruct (nth_error (gallery props) i) as [gal|] eqn:Ei.
      * unfold gallery_invariant. cbn [confirmations removal_log].
        split; [|split; [exact Hr|split;
          [intros Hno; rewrite Eon in Hno; discriminate Hno|split; [|lia]]]].
        -- apply incl_app; [exact Hc|].
           intros x [<-|[]]. eapply nth_error_In; eauto.
        -- destruct (confirmations ui ++ [gal]) eqn:E;
             destruct (confirmations ui); cbn in *; try discriminate; lia.
      * unfold gallery_invariant.
        split; [exact Hc|split; [exact Hr|split;
          [intros Hno; rewrite Eon in Hno;
           first [discriminate Hno | now apply Hoff]|split; lia]]].
    + unfold gallery_invariant.
      split; [exact Hc|split; [exact Hr|split;
          [intros Hno; rewrite Eon in Hno;
           first [discriminate Hno | now apply Hoff]|split; lia]]].
  - destruct (nth_error (confirmations ui) j) as [mediaUrl|] eqn:Ej.
    + assert (Hin : In mediaUrl (confirmations ui))
        by (eapply nth_error_In; eauto).
      unfold gallery_invariant. cbn [confirmations removal_log].
      rewrite removal_calls_app, remove_mutationFn_calls_once, length_app.
      cbn [List.length].
      split; [intros x []|split; [|split; [|split]]].
      * apply incl_app; [exact Hr|]. intros x [<-|[]]. now apply Hc.
      * intros Hno. destruct (Hoff Hno) as [E _]. rewrite E in Hin.
        contradiction.
      * destruct (confirmations ui); [contradiction|]. cbn in Ht. lia.
      * lia.
    + unfold gallery_invariant.
      split; [exact Hc|split; [exact Hr|split; [exact Hoff|split; lia]]].
  - destruct (nth_error (confirmations ui) j) as [mediaUrl|] eqn:Ej.
    + unfold gallery_invariant. cbn [confirmations removal_log].
      split; [intros x []|split; [exact Hr|split; [|split]]].
      * intros Hno. split; [reflexivity|]. now apply Hoff.
      * destruct (confirmations ui); cbn in Ht |- *; lia.
      * lia.
    + unfold gallery_invariant.
      split; [exact Hc|split; [exact Hr|split; [exact Hoff|split; lia]]].
Qed.

Lemma gallery_clicks_invariant answers props clicks :
  forall trashes removes ui,
    gallery_invariant props trashes removes ui ->
    gallery_invariant props
      (trashes + List.length (filter is_trash clicks))
      (removes + List.length (filter is_remove clicks))
      (fold_left (gallery_click answers props) clicks ui).
Proof.
  induction clicks as [|c clicks IH]; intros trashes removes ui Hinv.
  - cbn. now rewrite !Nat.add_0_r.
  - cbn [fold_left filter].
    pose proof (IH _ _ _ (gallery_click_invariant answers props c _ _ _ Hinv))
      as H.
    destruct (is_trash c), (is_remove c); cbn [List.length];
      rewrite ?Nat.add_0_r in *;
      rewrite <- ?Nat.add_assoc in H; cbn [Nat.add] in H; exact H.
Qed.

Lemma gallery_starts_sound props :
  gallery_invariant props 0 0 {| confirmations := []; removal_log := [] |}.
Proof.
  unfold gallery_invariant. cbn.
  repeat split; auto; intros x [].
Qed.

(** X17: in the media gallery an entry is removed only after it was
    confirmed.  Whatever is clicked and whatever the removal action
    answers, every entry handed to [onRemoveGroupGallery] is an entry of
    the gallery shown, and there are at most as many removals as clicks on
    a remove button, and at most as many as clicks on "Remove" in a
    confirmation; "Cancel" never removes. *)
Theorem gallery_removal_needs_confirmation :
  forall (answers : string -> settled (option MessageResult))
         (props : GalleryProps) (clicks : list click),
    let removed :=
      removal_calls (removal_log (gallery_clicks answers props clicks)) in
    incl removed (gallery props)
    /\ List.length removed <= List.length (filter is_trash clicks)
    /\ List.length removed <= List.length (filter is_remove clicks).
Proof.
  intros answers props clicks removed. subst removed. unfold gallery_clicks.
  destruct (gallery_clicks_invariant answers props clicks 0 0 _
              (gallery_starts_sound props)) as [_ [Hr [_ [Ht Hm]]]].
  cbn [Nat.add] in *. repeat split; [exact Hr|lia|exact Hm].
Qed.

(** X18: a viewer who is not the owner of the group cannot remove an entry
    of the gallery: the remove button is rendered for no entry, so that no
    click sequence opens a confirmation or reaches
    [onRemoveGroupGallery]. *)
Theorem gallery_removal_is_for_the_owner :
  forall (answers : string -> settled (option MessageResult))
         (props : GalleryProps) (clicks : list click),
    gallery_userid props <> gallery_groupUserid props ->
    remove_button_rendered props = false
    /\ removal_log (gallery_clicks answers props clicks) = []
    /\ confirmations (gallery_clicks answers props clicks) = [].
Proof.
  intros answers props clicks Hne. unfold gallery_clicks.
  destruct (gallery_clicks_invariant answers props clicks 0 0 _
              (gallery_starts_sound props)) as [_ [_ [H _]]].
  assert (R : remove_button_rendered props = false).
  { unfold remove_button_rendered.
    apply String.eqb_neq in Hne. now rewrite Hne. }
  assert (E : remove_button_rendered props
              && negb (remove_button_disabled props) = false)
    by now rewrite R.
  destruct (H E) as [Hc Hl]. repeat split; assumption.
Qed.

Lemma gallery_removal_is_for_the_owner_witness :
  gallery_userid sample_gallery <> gallery_groupUserid sample_gallery
  /\ removal_log
       (gallery_clicks (fun _ => Fulfilled None) sample_gallery
          [ClickTrash 0; ClickRemove 0]) = [].
Proof.
  assert (H : gallery_userid sample_gallery
              <> gallery_groupUserid sample_gallery) by discriminate.
  split; [exact H|].
  exact (proj1 (proj2 (gallery_removal_is_for_the_owner
                         (fun _ => Fulfilled None)
                         sample_gallery [ClickTrash 0; ClickRemove 0] H))).
Defined.
